(** * Collision candidates of the IPC toolkit

    A shallow embedding of [src/broad_phase/collision_candidate.cpp]: the
    candidate entities with their comparison operators, the CCD dispatch of
    every CCD-bearing kind, the [Candidates] container with its flat index
    operator, and the OBJ debug writer.

    Conventions of the embedding.
    - [long] indices are integers of [Z]. The comparison operators perform
      no arithmetic on them, so nothing depends on their width.
    - [size_t] is a 64-bit unsigned integer: a [Z] reduced by [wrap_size_t]
      after every subtraction and addition.
    - [int] is a 32-bit signed integer; an addition that overflows is
      undefined.
    - Undefined behaviour (an Eigen access outside the bounds of a matrix,
      a signed overflow, an unchecked vector access beyond the size) is the
      result [None] of the option monad, or [Undefined] where the call may
      also throw.
    - A C++ exception is the constructor [Throw] of [outcome]. *)

From Stdlib Require Import ZArith String.
From stdpp Require Import base tactics option list.

Local Open Scope Z_scope.

(** ** Candidate entities *)

Module VertexVertex.

Record VertexVertexCandidate : Type := Build {
  vertex0_index : Z;
  vertex1_index : Z
}.

(** [VertexVertexCandidate::VertexVertexCandidate]: the member
    initialisers store both arguments as they come. *)
Definition make (vertex0_index vertex1_index : Z) : VertexVertexCandidate :=
  {| vertex0_index := vertex0_index; vertex1_index := vertex1_index |}.

(** [VertexVertexCandidate::operator==] *)
Definition eqb (this other : VertexVertexCandidate) : bool :=
  (vertex0_index this =? vertex0_index other)
  && (vertex1_index this =? vertex1_index other).

(** [VertexVertexCandidate::operator<] *)
Definition ltb (this other : VertexVertexCandidate) : bool :=
  if vertex0_index this =? vertex0_index other
  then vertex1_index this <? vertex1_index other
  else vertex0_index this <? vertex0_index other.

End VertexVertex.

Module EdgeVertex.

Record EdgeVertexCandidate : Type := Build {
  edge_index : Z;
  vertex_index : Z
}.

(** [EdgeVertexCandidate::EdgeVertexCandidate] *)
Definition make (edge_index vertex_index : Z) : EdgeVertexCandidate :=
  {| edge_index := edge_index; vertex_index := vertex_index |}.

(** [EdgeVertexCandidate::operator==] *)
Definition eqb (this other : EdgeVertexCandidate) : bool :=
  (edge_index this =? edge_index other)
  && (vertex_index this =? vertex_index other).

(** [EdgeVertexCandidate::operator<] *)
Definition ltb (this other : EdgeVertexCandidate) : bool :=
  if edge_index this =? edge_index other
  then vertex_index this <? vertex_index other
  else edge_index this <? edge_index other.

End EdgeVertex.

Module EdgeEdge.

Record EdgeEdgeCandidate : Type := Build {
  edge0_index : Z;
  edge1_index : Z
}.

(** [EdgeEdgeCandidate::EdgeEdgeCandidate] *)
Definition make (edge0_index edge1_index : Z) : EdgeEdgeCandidate :=
  {| edge0_index := edge0_index; edge1_index := edge1_index |}.

(** [EdgeEdgeCandidate::operator==]:
    [(i, j) == (i, j) || (i, j) == (j, i)]. *)
Definition eqb (this other : EdgeEdgeCandidate) : bool :=
  ((edge0_index this =? edge0_index other)
   && (edge1_index this =? edge1_index other))
  || ((edge0_index this =? edge1_index other)
      && (edge1_index this =? edge0_index other)).

(** [EdgeEdgeCandidate::operator<] *)
Definition ltb (this other : EdgeEdgeCandidate) : bool :=
  let this_min := Z.min (edge0_index this) (edge1_index this) in
  let other_min := Z.min (edge0_index other) (edge1_index other) in
  if this_min =? other_min
  then Z.max (edge0_index this) (edge1_index this)
       <? Z.max (edge0_index other) (edge1_index other)
  else this_min <? other_min.

(** The candidate with its two stored indices exchanged. *)
Definition swap (c : EdgeEdgeCandidate) : EdgeEdgeCandidate :=
  make (edge1_index c) (edge0_index c).

End EdgeEdge.

Module EdgeFace.

Record EdgeFaceCandidate : Type := Build {
  edge_index : Z;
  face_index : Z
}.

(** [EdgeFaceCandidate::EdgeFaceCandidate] *)
Definition make (edge_index face_index : Z) : EdgeFaceCandidate :=
  {| edge_index := edge_index; face_index := face_index |}.

(** [EdgeFaceCandidate::operator==] *)
Definition eqb (this other : EdgeFaceCandidate) : bool :=
  (edge_index this =? edge_index other)
  && (face_index this =? face_index other).

(** [EdgeFaceCandidate::operator<] *)
Definition ltb (this other : EdgeFaceCandidate) : bool :=
  if edge_index this =? edge_index other
  then face_index this <? face_index other
  else edge_index this <? edge_index other.

End EdgeFace.

Module FaceVertex.

Record FaceVertexCandidate : Type := Build {
  face_index : Z;
  vertex_index : Z
}.

(** [FaceVertexCandidate::FaceVertexCandidate] *)
Definition make (face_index vertex_index : Z) : FaceVertexCandidate :=
  {| face_index := face_index; vertex_index := vertex_index |}.

(** [FaceVertexCandidate::operator==] *)
Definition eqb (this other : FaceVertexCandidate) : bool :=
  (face_index this =? face_index other)
  && (vertex_index this =? vertex_index other).

(** [FaceVertexCandidate::operator<] *)
Definition ltb (this other : FaceVertexCandidate) : bool :=
  if face_index this =? face_index other
  then vertex_index this <? vertex_index other
  else face_index this <? face_index other.

End FaceVertex.

(** ** What a comparator pair has to satisfy *)

(** The lexicographic strict order on pairs of integers. *)
Definition lex_ltb (p q : Z * Z) : bool :=
  if p.1 =? q.1 then p.2 <? q.2 else p.1 <? q.1.

(** [ltb] with [eqb] is a strict total order: of [a < b], [b < a] and
    [a == b] exactly one holds, and [<] is irreflexive and transitive. *)
Record StrictTotalOrder {A : Type} (eqb ltb : A → A → bool) : Prop := {
  sto_trichotomy a b :
    (ltb a b = true ∧ ltb b a = false ∧ eqb a b = false)
    ∨ (ltb a b = false ∧ ltb b a = true ∧ eqb a b = false)
    ∨ (ltb a b = false ∧ ltb b a = false ∧ eqb a b = true);
  sto_irreflexive a : ltb a a = false;
  sto_transitive a b c : ltb a b = true → ltb b c = true → ltb a c = true
}.

(** The pair of integers each kind is compared through. *)
Definition VertexVertex_key (c : VertexVertex.VertexVertexCandidate) : Z * Z :=
  (VertexVertex.vertex0_index c, VertexVertex.vertex1_index c).

Definition EdgeVertex_key (c : EdgeVertex.EdgeVertexCandidate) : Z * Z :=
  (EdgeVertex.edge_index c, EdgeVertex.vertex_index c).

Definition EdgeEdge_key (c : EdgeEdge.EdgeEdgeCandidate) : Z * Z :=
  (Z.min (EdgeEdge.edge0_index c) (EdgeEdge.edge1_index c),
   Z.max (EdgeEdge.edge0_index c) (EdgeEdge.edge1_index c)).

Definition EdgeFace_key (c : EdgeFace.EdgeFaceCandidate) : Z * Z :=
  (EdgeFace.edge_index c, EdgeFace.face_index c).

Definition FaceVertex_key (c : FaceVertex.FaceVertexCandidate) : Z * Z :=
  (FaceVertex.face_index c, FaceVertex.vertex_index c).

(** ** Machine integers *)

(** [size_t]: arithmetic is modulo [2^64]. *)
Definition SIZE_MAX : Z := 2 ^ 64 - 1.

Definition wrap_size_t (z : Z) : Z := z mod 2 ^ 64.

(** [int]: an addition that leaves the 32-bit signed range is undefined. *)
Definition INT_MIN : Z := - 2 ^ 31.

Definition INT_MAX : Z := 2 ^ 31 - 1.

Definition int_add (i k : Z) : option Z :=
  if decide (INT_MIN ≤ i + k ≤ INT_MAX) then Some (i + k) else None.

(** ** Eigen matrices *)

(** The element at a signed index; outside the bounds Eigen's accessors are
    undefined. *)
Definition at_index {A : Type} (l : list A) (i : Z) : option A :=
  if decide (0 ≤ i) then l !! Z.to_nat i else None.

(** [Eigen::MatrixXi] by rows, and [E(i, j)]. *)
Definition MatrixXi : Type := list (list Z).

Definition coeff (M : MatrixXi) (i j : Z) : option Z :=
  r ← at_index M i; at_index r j.

(** ** Results of a call that may throw *)

Inductive exception : Type :=
  | out_of_range (what : string).

Inductive outcome (A : Type) : Type :=
  | Return (a : A)
  | Throw (e : exception)
  | Undefined.

Arguments Return {A} a.
Arguments Throw {A} e.
Arguments Undefined {A}.

(** ** The candidate container *)

Record Candidates : Type := {
  ev_candidates : list EdgeVertex.EdgeVertexCandidate;
  ee_candidates : list EdgeEdge.EdgeEdgeCandidate;
  fv_candidates : list FaceVertex.FaceVertexCandidate
}.

(** The closed union behind the base class [ContinuousCollisionCandidate]:
    the three kinds stored in a container. *)
Inductive ContinuousCollisionCandidate : Type :=
  | an_edge_vertex (c : EdgeVertex.EdgeVertexCandidate)
  | an_edge_edge (c : EdgeEdge.EdgeEdgeCandidate)
  | a_face_vertex (c : FaceVertex.FaceVertexCandidate).

(** A reference to an element of a container: the sequence it lives in and
    its position there. *)
Inductive CandidateRef : Type :=
  | ev_ref (pos : nat)
  | ee_ref (pos : nat)
  | fv_ref (pos : nat).

(** Reading through a reference. *)
Definition deref (c : Candidates) (r : CandidateRef)
  : option ContinuousCollisionCandidate :=
  match r with
  | ev_ref pos => an_edge_vertex <$> ev_candidates c !! pos
  | ee_ref pos => an_edge_edge <$> ee_candidates c !! pos
  | fv_ref pos => a_face_vertex <$> fv_candidates c !! pos
  end.

(** [std::vector::size], [empty] and the unchecked [operator[]], which is
    undefined at and beyond the size. *)
Definition vector_size {A : Type} (v : list A) : Z := Z.of_nat (length v).

Definition vector_empty {A : Type} (v : list A) : bool :=
  match v with [] => true | _ :: _ => false end.

Definition vector_at {A : Type} (mk : nat → CandidateRef) (v : list A)
    (idx : Z) : outcome CandidateRef :=
  if decide (0 ≤ idx < vector_size v) then Return (mk (Z.to_nat idx))
  else Undefined.

(** A container a program can hold: its element count is a [size_t]. *)
Definition representable (c : Candidates) : Prop :=
  vector_size (ev_candidates c) + vector_size (ee_candidates c)
  + vector_size (fv_candidates c) ≤ SIZE_MAX.

(** [Candidates::size] *)
Definition size (c : Candidates) : Z :=
  wrap_size_t
    (wrap_size_t (vector_size (ev_candidates c) + vector_size (ee_candidates c))
     + vector_size (fv_candidates c)).

(** [Candidates::empty] *)
Definition empty (c : Candidates) : bool :=
  vector_empty (ev_candidates c) && vector_empty (ee_candidates c)
  && vector_empty (fv_candidates c).

(** [Candidates::clear] *)
Definition clear (c : Candidates) : Candidates :=
  {| ev_candidates := []; ee_candidates := []; fv_candidates := [] |}.

(** [Candidates::operator[]], the overload on a mutable container. The
    argument is a [size_t], so the first comparison is with an unsigned
    zero. *)
Definition index (c : Candidates) (idx : Z) : outcome CandidateRef :=
  if idx <? 0 then Throw (out_of_range "Constraint index is out of range!")
  else if idx <? vector_size (ev_candidates c)
  then vector_at ev_ref (ev_candidates c) idx
  else
    let idx := wrap_size_t (idx - vector_size (ev_candidates c)) in
    if idx <? vector_size (ee_candidates c)
    then vector_at ee_ref (ee_candidates c) idx
    else
      let idx := wrap_size_t (idx - vector_size (ee_candidates c)) in
      if idx <? vector_size (fv_candidates c)
      then vector_at fv_ref (fv_candidates c) idx
      else Throw (out_of_range "Constraint index is out of range!").

(** [Candidates::operator[] const], the overload on a constant container. *)
Definition index_const (c : Candidates) (idx : Z) : outcome CandidateRef :=
  if idx <? 0 then Throw (out_of_range "Constraint index is out of range!")
  else if idx <? vector_size (ev_candidates c)
  then vector_at ev_ref (ev_candidates c) idx
  else
    let idx := wrap_size_t (idx - vector_size (ev_candidates c)) in
    if idx <? vector_size (ee_candidates c)
    then vector_at ee_ref (ee_candidates c) idx
    else
      let idx := wrap_size_t (idx - vector_size (ee_candidates c)) in
      if idx <? vector_size (fv_candidates c)
      then vector_at fv_ref (fv_candidates c) idx
      else Throw (out_of_range "Constraint index is out of range!").

(** ** Geometry, CCD dispatch and the OBJ writer *)

Section Mesh.

(** The type of [double]. None of the code below computes with a
    coordinate: rows are read from a matrix and handed on. *)
Context {double : Type}.

(** A row of an [Eigen::MatrixXd], and the matrix by rows. *)
Definition RowVector : Type := list double.

Definition MatrixXd : Type := list RowVector.

(** [V.row(i)] *)
Definition row (V : MatrixXd) (i : Z) : option RowVector := at_index V i.

(** *** CCD dispatch *)

(** The narrow-phase kernels live outside this file. Each takes its moving
    primitives, the time of impact behind the reference [toi], and [tmax],
    [tolerance], [max_iterations], [conservative_rescaling]; it returns its
    verdict with the time of impact it leaves behind the reference. *)
Definition ccd_tail (R : Type) : Type :=
  double → double → double → Z → double → R.

Context (point_edge_ccd :
  RowVector → RowVector → RowVector →
  RowVector → RowVector → RowVector → ccd_tail (bool * double)).

Context (edge_edge_ccd :
  RowVector → RowVector → RowVector → RowVector →
  RowVector → RowVector → RowVector → RowVector → ccd_tail (bool * double)).

Context (point_triangle_ccd :
  RowVector → RowVector → RowVector → RowVector →
  RowVector → RowVector → RowVector → RowVector → ccd_tail (bool * double)).

(** [EdgeVertexCandidate::ccd] *)
Definition EdgeVertexCandidate_ccd (this : EdgeVertex.EdgeVertexCandidate)
    (V0 V1 : MatrixXd) (E F : MatrixXi)
    : ccd_tail (option (bool * double)) :=
  λ toi tmax tolerance max_iterations conservative_rescaling,
  p_t0 ← row V0 (EdgeVertex.vertex_index this);
  e0_t0 ← coeff E (EdgeVertex.edge_index this) 0 ≫= row V0;
  e1_t0 ← coeff E (EdgeVertex.edge_index this) 1 ≫= row V0;
  p_t1 ← row V1 (EdgeVertex.vertex_index this);
  e0_t1 ← coeff E (EdgeVertex.edge_index this) 0 ≫= row V1;
  e1_t1 ← coeff E (EdgeVertex.edge_index this) 1 ≫= row V1;
  Some (point_edge_ccd p_t0 e0_t0 e1_t0 p_t1 e0_t1 e1_t1
          toi tmax tolerance max_iterations conservative_rescaling).

(** [EdgeEdgeCandidate::ccd] *)
Definition EdgeEdgeCandidate_ccd (this : EdgeEdge.EdgeEdgeCandidate)
    (V0 V1 : MatrixXd) (E F : MatrixXi)
    : ccd_tail (option (bool * double)) :=
  λ toi tmax tolerance max_iterations conservative_rescaling,
  ea0_t0 ← coeff E (EdgeEdge.edge0_index this) 0 ≫= row V0;
  ea1_t0 ← coeff E (EdgeEdge.edge0_index this) 1 ≫= row V0;
  eb0_t0 ← coeff E (EdgeEdge.edge1_index this) 0 ≫= row V0;
  eb1_t0 ← coeff E (EdgeEdge.edge1_index this) 1 ≫= row V0;
  ea0_t1 ← coeff E (EdgeEdge.edge0_index this) 0 ≫= row V1;
  ea1_t1 ← coeff E (EdgeEdge.edge0_index this) 1 ≫= row V1;
  eb0_t1 ← coeff E (EdgeEdge.edge1_index this) 0 ≫= row V1;
  eb1_t1 ← coeff E (EdgeEdge.edge1_index this) 1 ≫= row V1;
  Some (edge_edge_ccd ea0_t0 ea1_t0 eb0_t0 eb1_t0 ea0_t1 ea1_t1 eb0_t1 eb1_t1
          toi tmax tolerance max_iterations conservative_rescaling).

(** [FaceVertexCandidate::ccd] *)
Definition FaceVertexCandidate_ccd (this : FaceVertex.FaceVertexCandidate)
    (V0 V1 : MatrixXd) (E F : MatrixXi)
    : ccd_tail (option (bool * double)) :=
  λ toi tmax tolerance max_iterations conservative_rescaling,
  p_t0 ← row V0 (FaceVertex.vertex_index this);
  t0_t0 ← coeff F (FaceVertex.face_index this) 0 ≫= row V0;
  t1_t0 ← coeff F (FaceVertex.face_index this) 1 ≫= row V0;
  t2_t0 ← coeff F (FaceVertex.face_index this) 2 ≫= row V0;
  p_t1 ← row V1 (FaceVertex.vertex_index this);
  t0_t1 ← coeff F (FaceVertex.face_index this) 0 ≫= row V1;
  t1_t1 ← coeff F (FaceVertex.face_index this) 1 ≫= row V1;
  t2_t1 ← coeff F (FaceVertex.face_index this) 2 ≫= row V1;
  Some (point_triangle_ccd p_t0 t0_t0 t1_t0 t2_t0 p_t1 t0_t1 t1_t1 t2_t1
          toi tmax tolerance max_iterations conservative_rescaling).

(** *** The output stream *)

(** What the writer sends to the stream, one record per line of the file:
    [o <tag>], a row in [OBJ_VERTEX_FORMAT] ([v x y z]), [l a b] and
    [f a b c]. *)
Inductive obj_record : Type :=
  | obj_name (tag : string)
  | obj_vertex (coords : RowVector)
  | obj_line (a b : Z)
  | obj_face (a b c : Z).

(** A [std::ofstream]: whether a file is attached, the sticky failure
    state, how many more records the device takes, and what it took. *)
Record ofstream : Type := {
  is_open : bool;
  failed : bool;
  room : nat;
  written : list obj_record
}.

(** What opening a path gives: [None] where no file can be opened, or the
    number of records the device behind the file will take. *)
Definition filesystem : Type := string → option nat.

(** [std::ofstream obj(filename, std::ios::out)] *)
Definition ofstream_open (fs : filesystem) (filename : string) : ofstream :=
  match fs filename with
  | None => {| is_open := false; failed := true; room := 0; written := [] |}
  | Some n => {| is_open := true; failed := false; room := n; written := [] |}
  end.

(** [out << r] on a stream that hands every record to the device at once:
    nothing happens on a failed stream, and a write the device refuses
    puts the stream in the failed state. A [std::ofstream] with a buffer
    learns of the refusal only when it flushes, so it may still be good
    where this one has failed; the records the device ends up holding and
    the flag [Candidates::save_obj] returns are the same for both. *)
Definition put (r : obj_record) (out : ofstream) : ofstream :=
  if failed out then out
  else
    match room out with
    | O => {| is_open := is_open out; failed := true; room := O;
              written := written out |}
    | S n => {| is_open := is_open out; failed := false; room := n;
                written := written out ++ [r] |}
    end.

(** [out << V.row(i).format(OBJ_VERTEX_FORMAT)] *)
Definition put_row (V : MatrixXd) (i : Z) (out : ofstream) : option ofstream :=
  coords ← row V i; Some (put (obj_vertex coords) out).

(** *** The OBJ writer *)

(** The body of the loop of [save_obj] over edge-vertex candidates, from
    the counter [i]; the counter it ends with is returned with the
    stream. *)
Fixpoint save_obj_ev_loop (out : ofstream) (V : MatrixXd) (E : MatrixXi)
    (i : Z) (ev_candidates : list EdgeVertex.EdgeVertexCandidate)
    : option (ofstream * Z) :=
  match ev_candidates with
  | [] => Some (out, i)
  | ev_candidate :: rest =>
      v ← coeff E (EdgeVertex.edge_index ev_candidate) 0;
      out ← put_row V v out;
      v ← coeff E (EdgeVertex.edge_index ev_candidate) 1;
      out ← put_row V v out;
      out ← put_row V (EdgeVertex.vertex_index ev_candidate) out;
      i1 ← int_add i 1;
      let out := put (obj_line i i1) out in
      i ← int_add i 3;
      save_obj_ev_loop out V E i rest
  end.

(** [save_obj] on a vector of edge-vertex candidates *)
Definition save_obj_ev (out : ofstream) (V : MatrixXd) (E F : MatrixXi)
    (ev_candidates : list EdgeVertex.EdgeVertexCandidate) : option ofstream :=
  let out := put (obj_name "EV") out in
  fst <$> save_obj_ev_loop out V E 1 ev_candidates.

Fixpoint save_obj_ee_loop (out : ofstream) (V : MatrixXd) (E : MatrixXi)
    (i : Z) (ee_candidates : list EdgeEdge.EdgeEdgeCandidate)
    : option (ofstream * Z) :=
  match ee_candidates with
  | [] => Some (out, i)
  | ee_candidate :: rest =>
      v ← coeff E (EdgeEdge.edge0_index ee_candidate) 0;
      out ← put_row V v out;
      v ← coeff E (EdgeEdge.edge0_index ee_candidate) 1;
      out ← put_row V v out;
      v ← coeff E (EdgeEdge.edge1_index ee_candidate) 0;
      out ← put_row V v out;
      v ← coeff E (EdgeEdge.edge1_index ee_candidate) 1;
      out ← put_row V v out;
      i0 ← int_add i 0;
      i1 ← int_add i 1;
      let out := put (obj_line i0 i1) out in
      i2 ← int_add i 2;
      i3 ← int_add i 3;
      let out := put (obj_line i2 i3) out in
      i ← int_add i 4;
      save_obj_ee_loop out V E i rest
  end.

(** [save_obj] on a vector of edge-edge candidates *)
Definition save_obj_ee (out : ofstream) (V : MatrixXd) (E F : MatrixXi)
    (ee_candidates : list EdgeEdge.EdgeEdgeCandidate) : option ofstream :=
  let out := put (obj_name "EE") out in
  fst <$> save_obj_ee_loop out V E 1 ee_candidates.

Fixpoint save_obj_fv_loop (out : ofstream) (V : MatrixXd) (F : MatrixXi)
    (i : Z) (fv_candidates : list FaceVertex.FaceVertexCandidate)
    : option (ofstream * Z) :=
  match fv_candidates with
  | [] => Some (out, i)
  | fv_candidate :: rest =>
      v ← coeff F (FaceVertex.face_index fv_candidate) 0;
      out ← put_row V v out;
      v ← coeff F (FaceVertex.face_index fv_candidate) 1;
      out ← put_row V v out;
      v ← coeff F (FaceVertex.face_index fv_candidate) 2;
      out ← put_row V v out;
      out ← put_row V (FaceVertex.vertex_index fv_candidate) out;
      i1 ← int_add i 1;
      i2 ← int_add i 2;
      let out := put (obj_face i i1 i2) out in
      i ← int_add i 4;
      save_obj_fv_loop out V F i rest
  end.

(** [save_obj] on a vector of face-vertex candidates *)
Definition save_obj_fv (out : ofstream) (V : MatrixXd) (E F : MatrixXi)
    (fv_candidates : list FaceVertex.FaceVertexCandidate) : option ofstream :=
  let out := put (obj_name "FV") out in
  fst <$> save_obj_fv_loop out V F 1 fv_candidates.

Fixpoint save_obj_ef_loop (out : ofstream) (V : MatrixXd) (E F : MatrixXi)
    (i : Z) (ef_candidates : list EdgeFace.EdgeFaceCandidate)
    : option (ofstream * Z) :=
  match ef_candidates with
  | [] => Some (out, i)
  | ef_candidate :: rest =>
      v ← coeff E (EdgeFace.edge_index ef_candidate) 0;
      out ← put_row V v out;
      v ← coeff E (EdgeFace.edge_index ef_candidate) 1;
      out ← put_row V v out;
      v ← coeff F (EdgeFace.face_index ef_candidate) 0;
      out ← put_row V v out;
      v ← coeff F (EdgeFace.face_index ef_candidate) 1;
      out ← put_row V v out;
      v ← coeff F (EdgeFace.face_index ef_candidate) 2;
      out ← put_row V v out;
      i1 ← int_add i 1;
      let out := put (obj_line i i1) out in
      i2 ← int_add i 2;
      i3 ← int_add i 3;
      i4 ← int_add i 4;
      let out := put (obj_face i2 i3 i4) out in
      i ← int_add i 5;
      save_obj_ef_loop out V E F i rest
  end.

(** [save_obj] on a vector of edge-face candidates *)
Definition save_obj_ef (out : ofstream) (V : MatrixXd) (E F : MatrixXi)
    (ef_candidates : list EdgeFace.EdgeFaceCandidate) : option ofstream :=
  let out := put (obj_name "EF") out in
  fst <$> save_obj_ef_loop out V E F 1 ef_candidates.

(** [Candidates::save_obj]: the returned flag with the stream as the call
    leaves it. The face-vertex writer receives [F] for both index
    matrices. *)
Definition save_obj (fs : filesystem) (this : Candidates) (filename : string)
    (V : MatrixXd) (E F : MatrixXi) : option (bool * ofstream) :=
  let obj := ofstream_open fs filename in
  if negb (is_open obj) then Some (false, obj)
  else
    obj ← save_obj_ev obj V E F (ev_candidates this);
    obj ← save_obj_ee obj V E F (ee_candidates this);
    obj ← save_obj_fv obj V F F (fv_candidates this);
    Some (true, obj).

(** *** Reading the written file *)

(** The tags of the named objects of a file, in order. *)
Definition object_names (f : list obj_record) : list string :=
  omap (λ r, match r with obj_name tag => Some tag | _ => None end) f.

(** The vertex records of a file, in order. The OBJ format numbers them
    from 1 through the whole file: an [o] record starts no new numbering. *)
Definition vertices (f : list obj_record) : list RowVector :=
  omap (λ r, match r with obj_vertex coords => Some coords | _ => None end) f.

Definition vertex_count (f : list obj_record) : nat := length (vertices f).

(** The vertex a connectivity index of the file refers to. *)
Definition vertex_of_index (f : list obj_record) (k : Z) : option RowVector :=
  if decide (1 ≤ k) then vertices f !! Z.to_nat (k - 1) else None.

(** The connectivity records of a file as a reader resolves them: every
    index is replaced by the vertex it refers to. *)
Definition resolved (f : list obj_record) : list (list (option RowVector)) :=
  omap (λ r, match r with
             | obj_line a b => Some [vertex_of_index f a; vertex_of_index f b]
             | obj_face a b c =>
                 Some [vertex_of_index f a; vertex_of_index f b;
                       vertex_of_index f c]
             | _ => None
             end) f.

(** *** What a run of the writer needs and leaves *)

(** [sent recs out out']: if the stream [out'] has not failed, then neither
    had [out], and [out'] holds what [out] held followed by [recs]. *)
Definition sent (recs : list obj_record) (out out' : ofstream) : Prop :=
  is_open out' = is_open out
  ∧ (failed out' = false →
     failed out = false ∧ written out' = written out ++ recs).

(** The rows a candidate of each kind makes the writer read exist. *)
Definition ev_rows_exist (V : MatrixXd) (E : MatrixXi)
    (c : EdgeVertex.EdgeVertexCandidate) : Prop :=
  is_Some (coeff E (EdgeVertex.edge_index c) 0 ≫= row V)
  ∧ is_Some (coeff E (EdgeVertex.edge_index c) 1 ≫= row V)
  ∧ is_Some (row V (EdgeVertex.vertex_index c)).

Definition ee_rows_exist (V : MatrixXd) (E : MatrixXi)
    (c : EdgeEdge.EdgeEdgeCandidate) : Prop :=
  is_Some (coeff E (EdgeEdge.edge0_index c) 0 ≫= row V)
  ∧ is_Some (coeff E (EdgeEdge.edge0_index c) 1 ≫= row V)
  ∧ is_Some (coeff E (EdgeEdge.edge1_index c) 0 ≫= row V)
  ∧ is_Some (coeff E (EdgeEdge.edge1_index c) 1 ≫= row V).

Definition fv_rows_exist (V : MatrixXd) (F : MatrixXi)
    (c : FaceVertex.FaceVertexCandidate) : Prop :=
  is_Some (coeff F (FaceVertex.face_index c) 0 ≫= row V)
  ∧ is_Some (coeff F (FaceVertex.face_index c) 1 ≫= row V)
  ∧ is_Some (coeff F (FaceVertex.face_index c) 2 ≫= row V)
  ∧ is_Some (row V (FaceVertex.vertex_index c)).

(** A container the writer can dump over a mesh: every row it reads exists
    and every counter stays an [int]. *)
Definition dumpable (V : MatrixXd) (E F : MatrixXi) (c : Candidates) : Prop :=
  Forall (ev_rows_exist V E) (ev_candidates c)
  ∧ Forall (ee_rows_exist V E) (ee_candidates c)
  ∧ Forall (fv_rows_exist V F) (fv_candidates c)
  ∧ 1 + 3 * Z.of_nat (length (ev_candidates c)) ≤ INT_MAX
  ∧ 1 + 4 * Z.of_nat (length (ee_candidates c)) ≤ INT_MAX
  ∧ 1 + 4 * Z.of_nat (length (fv_candidates c)) ≤ INT_MAX.

End Mesh.

(** ** Scenarios *)

(** A container with two edge-vertex candidates, one edge-edge candidate
    and three face-vertex candidates. *)
Definition scenario_S5 : Candidates := {|
  ev_candidates := [EdgeVertex.make 0 3; EdgeVertex.make 1 3];
  ee_candidates := [EdgeEdge.make 0 2];
  fv_candidates :=
    [FaceVertex.make 0 3; FaceVertex.make 0 4; FaceVertex.make 1 0]
|}.

(** A mesh for the scenarios: five vertices, three edges, two faces. The
    coordinates are whole numbers, which a [double] holds exactly, so the
    type of coordinates is [Z] here. *)
Definition scenario_V : @MatrixXd Z :=
  [[0; 0; 0]; [1; 0; 0]; [0; 1; 0]; [0; 0; 1]; [1; 1; 1]].

Definition scenario_V1 : @MatrixXd Z :=
  [[0; 0; 0]; [1; 0; 0]; [0; 1; 0]; [0; 0; -1]; [1; 1; 2]].

Definition scenario_E : MatrixXi := [[0; 1]; [1; 2]; [3; 4]].

Definition scenario_F : MatrixXi := [[0; 1; 2]; [1; 2; 4]].

(** Stand-ins for the kernels, for running the dispatch on the scenario
    mesh: a hit at half of [tmax]. *)
Definition stub6 (p a b p' a' b' : @RowVector Z)
    : @ccd_tail Z (bool * Z) :=
  λ toi tmax tolerance max_iterations conservative_rescaling,
  (true, tmax / 2).

Definition stub8 (p a b c p' a' b' c' : @RowVector Z)
    : @ccd_tail Z (bool * Z) :=
  λ toi tmax tolerance max_iterations conservative_rescaling,
  (true, tmax / 2).

(** A container with one edge-vertex candidate followed by one edge-edge
    candidate, over the scenario mesh. *)
Definition scenario_EV_then_EE : Candidates := {|
  ev_candidates := [EdgeVertex.make 0 3];
  ee_candidates := [EdgeEdge.make 1 2];
  fv_candidates := []
|}.

(** File systems for the scenarios: one where no path opens, and one
    where every path opens on a device that takes [n] records. *)
Definition no_files : filesystem := λ _, None.

Definition device_of (n : nat) : filesystem := λ _, Some n.

(** ** Describing a written file *)

(** Sending a list of records to a stream, one [<<] after the other. *)
Definition put_all {double : Type} (recs : list (@obj_record double))
    (out : @ofstream double) : @ofstream double :=
  foldl (λ out r, put r out) out recs.

(** The vertex a connectivity index refers to, given the vertices of the
    whole file. *)
Definition index_in {double : Type} (vs : list (@RowVector double)) (k : Z)
    : option (@RowVector double) :=
  if decide (1 ≤ k) then vs !! Z.to_nat (k - 1) else None.

(** The connectivity records among [recs], every index replaced by the
    vertex it refers to in a file whose vertices are [vs]. *)
Definition resolved_in {double : Type} (vs : list (@RowVector double))
    (recs : list (@obj_record double))
    : list (list (option (@RowVector double))) :=
  omap (λ r, match r with
             | obj_line a b => Some [index_in vs a; index_in vs b]
             | obj_face a b c => Some [index_in vs a; index_in vs b;
                                       index_in vs c]
             | _ => None
             end) recs.

(** The geometry of a candidate of each kind: the endpoints of an edge as
    a segment, the corners of a face as a triangle. *)
Definition segment {double : Type} (V : @MatrixXd double) (E : MatrixXi)
    (e : Z) : list (option (@RowVector double)) :=
  [coeff E e 0 ≫= row V; coeff E e 1 ≫= row V].

Definition triangle {double : Type} (V : @MatrixXd double) (F : MatrixXi)
    (f : Z) : list (option (@RowVector double)) :=
  [coeff F f 0 ≫= row V; coeff F f 1 ≫= row V; coeff F f 2 ≫= row V].

Definition ev_shapes {double : Type} (V : @MatrixXd double) (E : MatrixXi)
    (c : EdgeVertex.EdgeVertexCandidate)
    : list (list (option (@RowVector double))) :=
  [segment V E (EdgeVertex.edge_index c)].

Definition ee_shapes {double : Type} (V : @MatrixXd double) (E : MatrixXi)
    (c : EdgeEdge.EdgeEdgeCandidate)
    : list (list (option (@RowVector double))) :=
  [segment V E (EdgeEdge.edge0_index c); segment V E (EdgeEdge.edge1_index c)].

Definition fv_shapes {double : Type} (V : @MatrixXd double) (F : MatrixXi)
    (c : FaceVertex.FaceVertexCandidate)
    : list (list (option (@RowVector double))) :=
  [triangle V F (FaceVertex.face_index c)].

Definition ef_shapes {double : Type} (V : @MatrixXd double) (E F : MatrixXi)
    (c : EdgeFace.EdgeFaceCandidate)
    : list (list (option (@RowVector double))) :=
  [segment V E (EdgeFace.edge_index c); triangle V F (EdgeFace.face_index c)].

(** The rows an edge-face candidate makes the writer read exist. *)
Definition ef_rows_exist {double : Type} (V : @MatrixXd double)
    (E F : MatrixXi) (c : EdgeFace.EdgeFaceCandidate) : Prop :=
  is_Some (coeff E (EdgeFace.edge_index c) 0 ≫= row V)
  ∧ is_Some (coeff E (EdgeFace.edge_index c) 1 ≫= row V)
  ∧ is_Some (coeff F (EdgeFace.face_index c) 0 ≫= row V)
  ∧ is_Some (coeff F (EdgeFace.face_index c) 1 ≫= row V)
  ∧ is_Some (coeff F (EdgeFace.face_index c) 2 ≫= row V).

(** The number of records of the dump of a container: three object names,
    four records for an edge-vertex, six for an edge-edge and five for a
    face-vertex candidate. *)
Definition dump_length (c : Candidates) : nat :=
  3 + 4 * length (ev_candidates c) + 6 * length (ee_candidates c)
  + 5 * length (fv_candidates c).

(** Two edge-face candidates over the scenario mesh, and a stream that
    holds nothing yet on a device that takes [n] records. *)
Definition scenario_EF : list EdgeFace.EdgeFaceCandidate :=
  [EdgeFace.make 2 0; EdgeFace.make 0 1].

Definition fresh_stream (n : nat) : @ofstream Z :=
  {| is_open := true; failed := false; room := n; written := [] |}.


(** Turning the boolean integer tests of a goal and its hypotheses into
    propositions for [lia]. *)
Ltac Z_bool :=
  repeat match goal with
  | |- context [?a =? ?b] => destruct (Z.eqb_spec a b)
  | |- context [?a <? ?b] => destruct (Z.ltb_spec a b)
  | H : context [?a =? ?b] |- _ => destruct (Z.eqb_spec a b)
  | H : context [?a <? ?b] |- _ => destruct (Z.ltb_spec a b)
  end.

(** * Properties *)

(** ** Comparators *)

Lemma lex_ltb_irrefl p : lex_ltb p p = false.
Proof. unfold lex_ltb. Z_bool; lia. Qed.

Lemma lex_ltb_trans p q r :
  lex_ltb p q = true → lex_ltb q r = true → lex_ltb p r = true.
Proof. unfold lex_ltb. intros Hpq Hqr. Z_bool; try done; lia. Qed.

Lemma lex_ltb_total p q :
  (lex_ltb p q = true ∧ lex_ltb q p = false ∧ p ≠ q)
  ∨ (lex_ltb p q = false ∧ lex_ltb q p = true ∧ p ≠ q)
  ∨ (lex_ltb p q = false ∧ lex_ltb q p = false ∧ p = q).
Proof.
  destruct p as [p1 p2], q as [q1 q2]. unfold lex_ltb. simpl.
  Z_bool; try lia;
    first
      [ left; split_and!; [done | done | intros [= ]; lia]
      | right; left; split_and!; [done | done | intros [= ]; lia]
      | right; right; split_and!; [done | done | f_equal; lia] ].
Qed.

(** A comparator pair that reads both operands through a key in [Z * Z],
    [<] as the lexicographic order of the keys and [==] as their equality,
    is a strict total order. *)
Lemma StrictTotalOrder_of_key {A : Type} (key : A → Z * Z)
    (eqb ltb : A → A → bool) :
  (∀ a b, ltb a b = lex_ltb (key a) (key b)) →
  (∀ a b, eqb a b = true ↔ key a = key b) →
  StrictTotalOrder eqb ltb.
Proof.
  intros Hlt Heq. split.
  - intros a b. rewrite !Hlt.
    destruct (lex_ltb_total (key a) (key b)) as [(-> & -> & Hk)|[(-> & -> & Hk)|(-> & -> & Hk)]].
    + left. split_and!; [done..|]. apply not_true_is_false. by rewrite Heq.
    + right. left. split_and!; [done..|]. apply not_true_is_false. by rewrite Heq.
    + right. right. split_and!; [done..|]. by apply Heq.
  - intros a. rewrite Hlt. apply lex_ltb_irrefl.
  - intros a b c. rewrite !Hlt. apply lex_ltb_trans.
Qed.

Lemma pair_eqb_true (a b c d : Z) :
  (a =? c) && (b =? d) = true ↔ (a, b) = (c, d).
Proof.
  rewrite andb_true_iff, !Z.eqb_eq. split; [by intros [-> ->]|by intros [= -> ->]].
Qed.

Lemma VertexVertex_sto : StrictTotalOrder VertexVertex.eqb VertexVertex.ltb.
Proof.
  apply (StrictTotalOrder_of_key VertexVertex_key); [done|].
  intros a b. apply pair_eqb_true.
Qed.

Lemma EdgeVertex_sto : StrictTotalOrder EdgeVertex.eqb EdgeVertex.ltb.
Proof.
  apply (StrictTotalOrder_of_key EdgeVertex_key); [done|].
  intros a b. apply pair_eqb_true.
Qed.

Lemma EdgeFace_sto : StrictTotalOrder EdgeFace.eqb EdgeFace.ltb.
Proof.
  apply (StrictTotalOrder_of_key EdgeFace_key); [done|].
  intros a b. apply pair_eqb_true.
Qed.

Lemma FaceVertex_sto : StrictTotalOrder FaceVertex.eqb FaceVertex.ltb.
Proof.
  apply (StrictTotalOrder_of_key FaceVertex_key); [done|].
  intros a b. apply pair_eqb_true.
Qed.

(** Edge-edge equality is equality of the unordered pair. *)
Lemma EdgeEdge_eqb_key (a b : EdgeEdge.EdgeEdgeCandidate) :
  EdgeEdge.eqb a b = true ↔ EdgeEdge_key a = EdgeEdge_key b.
Proof.
  destruct a as [a0 a1], b as [b0 b1].
  unfold EdgeEdge.eqb, EdgeEdge_key. simpl.
  rewrite orb_true_iff, !andb_true_iff, !Z.eqb_eq. split.
  - intros [[-> ->]|[-> ->]]; f_equal; lia.
  - intros [= Hmin Hmax]. lia.
Qed.

Lemma EdgeEdge_ltb_key (a b : EdgeEdge.EdgeEdgeCandidate) :
  EdgeEdge.ltb a b = lex_ltb (EdgeEdge_key a) (EdgeEdge_key b).
Proof. reflexivity. Qed.

Lemma EdgeEdge_sto : StrictTotalOrder EdgeEdge.eqb EdgeEdge.ltb.
Proof.
  apply (StrictTotalOrder_of_key EdgeEdge_key).
  - apply EdgeEdge_ltb_key.
  - apply EdgeEdge_eqb_key.
Qed.

(** C9. For each of the five candidate kinds, [operator<] with
    [operator==] is a strict total order over all index values, valid or
    not: of [a < b], [b < a] and [a == b] exactly one holds, and [<] is
    irreflexive and transitive. *)
Theorem comparators_strict_total_order :
  StrictTotalOrder VertexVertex.eqb VertexVertex.ltb
  ∧ StrictTotalOrder EdgeVertex.eqb EdgeVertex.ltb
  ∧ StrictTotalOrder EdgeEdge.eqb EdgeEdge.ltb
  ∧ StrictTotalOrder EdgeFace.eqb EdgeFace.ltb
  ∧ StrictTotalOrder FaceVertex.eqb FaceVertex.ltb.
Proof.
  split_and!.
  - apply VertexVertex_sto.
  - apply EdgeVertex_sto.
  - apply EdgeEdge_sto.
  - apply EdgeFace_sto.
  - apply FaceVertex_sto.
Qed.

Lemma EdgeEdge_key_swap (c : EdgeEdge.EdgeEdgeCandidate) :
  EdgeEdge_key (EdgeEdge.swap c) = EdgeEdge_key c.
Proof.
  unfold EdgeEdge_key, EdgeEdge.swap. simpl. f_equal; lia.
Qed.

(** C3. [EE(a, b)] and [EE(b, a)] compare equal; the strict order of
    edge-edge candidates is the lexicographic order of
    [(min(e0, e1), max(e0, e1))]; and exchanging the two stored indices of
    either operand leaves the order as it is. *)
Theorem edge_edge_order_unordered_pair (a b : Z)
    (x y : EdgeEdge.EdgeEdgeCandidate) :
  EdgeEdge.eqb (EdgeEdge.make a b) (EdgeEdge.make b a) = true
  ∧ EdgeEdge.ltb x y
    = lex_ltb
        (Z.min (EdgeEdge.edge0_index x) (EdgeEdge.edge1_index x),
         Z.max (EdgeEdge.edge0_index x) (EdgeEdge.edge1_index x))
        (Z.min (EdgeEdge.edge0_index y) (EdgeEdge.edge1_index y),
         Z.max (EdgeEdge.edge0_index y) (EdgeEdge.edge1_index y))
  ∧ EdgeEdge.ltb (EdgeEdge.swap x) y = EdgeEdge.ltb x y
  ∧ EdgeEdge.ltb x (EdgeEdge.swap y) = EdgeEdge.ltb x y
  ∧ EdgeEdge.ltb (EdgeEdge.make a b) (EdgeEdge.make b a) = false.
Proof.
  split_and!.
  - unfold EdgeEdge.eqb. simpl. rewrite !Z.eqb_refl. by rewrite orb_true_r.
  - reflexivity.
  - by rewrite !EdgeEdge_ltb_key, EdgeEdge_key_swap.
  - by rewrite !EdgeEdge_ltb_key, EdgeEdge_key_swap.
  - rewrite EdgeEdge_ltb_key.
    change (EdgeEdge.make b a) with (EdgeEdge.swap (EdgeEdge.make a b)).
    rewrite EdgeEdge_key_swap. apply lex_ltb_irrefl.
Qed.

(** C2, as the code has it. The constructor stores its arguments in the
    order given, without normalizing them. [operator==] holds exactly when
    both stored fields agree, and [operator<] is the lexicographic order of
    the stored pair [(v0, v1)], the second index breaking a tie of the
    first. So [VV(a, b)] equals [VV(b, a)] only when [a = b], and
    otherwise the one whose first index is smaller is strictly less than
    the other. *)
Theorem vertex_vertex_ordered_pair (a b : Z) :
  VertexVertex.vertex0_index (VertexVertex.make a b) = a
  ∧ VertexVertex.vertex1_index (VertexVertex.make a b) = b
  ∧ (∀ x y : VertexVertex.VertexVertexCandidate,
       VertexVertex.eqb x y = true
       ↔ VertexVertex.vertex0_index x = VertexVertex.vertex0_index y
         ∧ VertexVertex.vertex1_index x = VertexVertex.vertex1_index y)
  ∧ (∀ x y : VertexVertex.VertexVertexCandidate,
       VertexVertex.ltb x y = true
       ↔ VertexVertex.vertex0_index x < VertexVertex.vertex0_index y
         ∨ (VertexVertex.vertex0_index x = VertexVertex.vertex0_index y
            ∧ VertexVertex.vertex1_index x < VertexVertex.vertex1_index y))
  ∧ (∀ c d : Z,
       VertexVertex.eqb (VertexVertex.make a b) (VertexVertex.make c d)
       = (a =? c) && (b =? d)
       ∧ VertexVertex.ltb (VertexVertex.make a b) (VertexVertex.make c d)
         = lex_ltb (a, b) (c, d))
  ∧ VertexVertex.eqb (VertexVertex.make a b) (VertexVertex.make b a)
    = (a =? b)
  ∧ VertexVertex.ltb (VertexVertex.make a b) (VertexVertex.make b a)
    = (a <? b).
Proof.
  split_and!; [done..| | | | |].
  - intros x y. unfold VertexVertex.eqb.
    by rewrite andb_true_iff, !Z.eqb_eq.
  - intros x y. unfold VertexVertex.ltb. Z_bool; split; try done; lia.
  - intros c d. by split.
  - unfold VertexVertex.eqb. simpl. Z_bool; try done; lia.
  - unfold VertexVertex.ltb. simpl. Z_bool; try done; lia.
Qed.

(** C2 fails: [VV(1, 2)] and [VV(2, 1)] keep their indices as given,
    compare unequal, and the first is strictly less than the second. *)
Lemma vertex_vertex_not_symmetric :
  VertexVertex.vertex0_index (VertexVertex.make 2 1) = 2
  ∧ VertexVertex.vertex1_index (VertexVertex.make 2 1) = 1
  ∧ VertexVertex.eqb (VertexVertex.make 1 2) (VertexVertex.make 2 1) = false
  ∧ VertexVertex.ltb (VertexVertex.make 1 2) (VertexVertex.make 2 1) = true.
Proof. by split_and!. Qed.

(** ** The container *)

Lemma wrap_size_t_small (z : Z) : 0 ≤ z ≤ SIZE_MAX → wrap_size_t z = z.
Proof. unfold wrap_size_t, SIZE_MAX. intros Hz. apply Z.mod_small. lia. Qed.

Lemma vector_size_nonneg {A : Type} (v : list A) : 0 ≤ vector_size v.
Proof. unfold vector_size. lia. Qed.

Lemma vector_empty_nil {A : Type} (v : list A) :
  vector_empty v = true ↔ v = [].
Proof. by destruct v. Qed.

Lemma size_representable (c : Candidates) :
  representable c →
  size c = vector_size (ev_candidates c) + vector_size (ee_candidates c)
           + vector_size (fv_candidates c).
Proof.
  unfold representable, size. intros Hrep.
  pose proof (vector_size_nonneg (ev_candidates c)).
  pose proof (vector_size_nonneg (ee_candidates c)).
  pose proof (vector_size_nonneg (fv_candidates c)).
  rewrite (wrap_size_t_small (_ + vector_size (ee_candidates c))) by lia.
  apply wrap_size_t_small. lia.
Qed.

(** C6. [size()] is [|ev| + |ee| + |fv|], [empty()] holds exactly when the
    three sequences are empty, and [clear()] leaves the three sequences,
    which are all a container has, empty. *)
Theorem size_empty_clear (c : Candidates) :
  representable c →
  size c = Z.of_nat (length (ev_candidates c))
           + Z.of_nat (length (ee_candidates c))
           + Z.of_nat (length (fv_candidates c))
  ∧ (empty c = true
     ↔ ev_candidates c = [] ∧ ee_candidates c = [] ∧ fv_candidates c = [])
  ∧ clear c
    = {| ev_candidates := []; ee_candidates := []; fv_candidates := [] |}
  ∧ size (clear c) = 0
  ∧ empty (clear c) = true.
Proof.
  intros Hrep. split_and!; [|..|done|done|done].
  - by apply size_representable.
  - unfold empty. rewrite !andb_true_iff, !vector_empty_nil. tauto.
Qed.

Lemma scenario_S5_representable : representable scenario_S5.
Proof. vm_compute. discriminate. Defined.

Lemma size_empty_clear_witness :
  size scenario_S5 = 2 + 1 + 3
  ∧ (empty scenario_S5 = true
     ↔ ev_candidates scenario_S5 = [] ∧ ee_candidates scenario_S5 = []
       ∧ fv_candidates scenario_S5 = [])
  ∧ clear scenario_S5
    = {| ev_candidates := []; ee_candidates := []; fv_candidates := [] |}
  ∧ size (clear scenario_S5) = 0
  ∧ empty (clear scenario_S5) = true.
Proof. exact (size_empty_clear scenario_S5 scenario_S5_representable). Defined.

Lemma vector_at_in_range {A : Type} (mk : nat → CandidateRef) (v : list A)
    (idx : Z) :
  0 ≤ idx < vector_size v →
  vector_at mk v idx = Return (mk (Z.to_nat idx))
  ∧ is_Some (v !! Z.to_nat idx).
Proof.
  intros Hidx. unfold vector_at. rewrite decide_True by done. split; [done|].
  apply lookup_lt_is_Some. unfold vector_size in Hidx. lia.
Qed.

(** The three segments of the flat index space and what lies beyond,
    without reference to [size]. *)
Lemma index_ev (c : Candidates) (i : Z) :
  0 ≤ i < vector_size (ev_candidates c) →
  index c i = Return (ev_ref (Z.to_nat i))
  ∧ is_Some (ev_candidates c !! Z.to_nat i).
Proof.
  intros Hi. unfold index.
  destruct (Z.ltb_spec i 0); [lia|].
  destruct (Z.ltb_spec i (vector_size (ev_candidates c))); [|lia].
  by apply vector_at_in_range.
Qed.

Lemma index_ee (c : Candidates) (i : Z) :
  i ≤ SIZE_MAX →
  vector_size (ev_candidates c) ≤ i
  < vector_size (ev_candidates c) + vector_size (ee_candidates c) →
  index c i = Return (ee_ref (Z.to_nat (i - vector_size (ev_candidates c))))
  ∧ is_Some (ee_candidates c !! Z.to_nat (i - vector_size (ev_candidates c))).
Proof.
  intros Hmax Hi. unfold index.
  pose proof (vector_size_nonneg (ev_candidates c)).
  destruct (Z.ltb_spec i 0); [lia|].
  destruct (Z.ltb_spec i (vector_size (ev_candidates c))); [lia|].
  rewrite wrap_size_t_small by lia.
  destruct (Z.ltb_spec (i - vector_size (ev_candidates c))
              (vector_size (ee_candidates c))); [|lia].
  apply vector_at_in_range. lia.
Qed.

Lemma index_fv (c : Candidates) (i : Z) :
  i ≤ SIZE_MAX →
  vector_size (ev_candidates c) + vector_size (ee_candidates c) ≤ i
  < vector_size (ev_candidates c) + vector_size (ee_candidates c)
    + vector_size (fv_candidates c) →
  index c i
  = Return (fv_ref (Z.to_nat (i - vector_size (ev_candidates c)
                              - vector_size (ee_candidates c))))
  ∧ is_Some (fv_candidates c
             !! Z.to_nat (i - vector_size (ev_candidates c)
                          - vector_size (ee_candidates c))).
Proof.
  intros Hmax Hi. unfold index.
  pose proof (vector_size_nonneg (ev_candidates c)).
  pose proof (vector_size_nonneg (ee_candidates c)).
  destruct (Z.ltb_spec i 0); [lia|].
  destruct (Z.ltb_spec i (vector_size (ev_candidates c))); [lia|].
  rewrite wrap_size_t_small by lia.
  destruct (Z.ltb_spec (i - vector_size (ev_candidates c))
              (vector_size (ee_candidates c))); [lia|].
  rewrite wrap_size_t_small by lia.
  destruct (Z.ltb_spec (i - vector_size (ev_candidates c)
                        - vector_size (ee_candidates c))
              (vector_size (fv_candidates c))); [|lia].
  apply vector_at_in_range. lia.
Qed.

Lemma index_beyond (c : Candidates) (i : Z) :
  i ≤ SIZE_MAX →
  vector_size (ev_candidates c) + vector_size (ee_candidates c)
  + vector_size (fv_candidates c) ≤ i →
  index c i = Throw (out_of_range "Constraint index is out of range!").
Proof.
  intros Hmax Hi. unfold index.
  pose proof (vector_size_nonneg (ev_candidates c)).
  pose proof (vector_size_nonneg (ee_candidates c)).
  pose proof (vector_size_nonneg (fv_candidates c)).
  destruct (Z.ltb_spec i 0); [done|].
  destruct (Z.ltb_spec i (vector_size (ev_candidates c))); [lia|].
  rewrite wrap_size_t_small by lia.
  destruct (Z.ltb_spec (i - vector_size (ev_candidates c))
              (vector_size (ee_candidates c))); [lia|].
  rewrite wrap_size_t_small by lia.
  destruct (Z.ltb_spec (i - vector_size (ev_candidates c)
                        - vector_size (ee_candidates c))
              (vector_size (fv_candidates c))); [lia|done].
Qed.

(** C1. On a container [c] and a [size_t] index [i]: below [|ev|] the
    operator returns a reference to the [i]-th edge-vertex candidate; from
    [|ev|] to below [|ev| + |ee|], to the [(i - |ev|)]-th edge-edge
    candidate; from there to below [size()], to the
    [(i - |ev| - |ee|)]-th face-vertex candidate; and from [size()] on it
    throws [std::out_of_range]. *)
Theorem flat_index_contract (c : Candidates) (i : Z) :
  representable c →
  0 ≤ i ≤ SIZE_MAX →
  (i < vector_size (ev_candidates c) →
   ∃ x, ev_candidates c !! Z.to_nat i = Some x
        ∧ index c i = Return (ev_ref (Z.to_nat i))
        ∧ deref c (ev_ref (Z.to_nat i)) = Some (an_edge_vertex x))
  ∧ (vector_size (ev_candidates c) ≤ i
     < vector_size (ev_candidates c) + vector_size (ee_candidates c) →
     let pos := Z.to_nat (i - vector_size (ev_candidates c)) in
     ∃ x, ee_candidates c !! pos = Some x
          ∧ index c i = Return (ee_ref pos)
          ∧ deref c (ee_ref pos) = Some (an_edge_edge x))
  ∧ (vector_size (ev_candidates c) + vector_size (ee_candidates c) ≤ i
     < size c →
     let pos := Z.to_nat (i - vector_size (ev_candidates c)
                          - vector_size (ee_candidates c)) in
     ∃ x, fv_candidates c !! pos = Some x
          ∧ index c i = Return (fv_ref pos)
          ∧ deref c (fv_ref pos) = Some (a_face_vertex x))
  ∧ (size c ≤ i →
     index c i = Throw (out_of_range "Constraint index is out of range!")).
Proof.
  intros Hrep [Hi0 Himax]. rewrite (size_representable c Hrep). split_and!.
  - intros Hi. destruct (index_ev c i) as [Hidx [x Hx]]; [lia|].
    exists x. split_and!; [done..|]. simpl. by rewrite Hx.
  - intros Hi pos. destruct (index_ee c i) as [Hidx [x Hx]]; [done..|].
    exists x. split_and!; [done..|]. simpl. subst pos. by rewrite Hx.
  - intros Hi pos. destruct (index_fv c i) as [Hidx [x Hx]]; [done..|].
    exists x. split_and!; [done..|]. simpl. subst pos. by rewrite Hx.
  - intros Hi. by apply index_beyond.
Qed.

Lemma flat_index_contract_witness :
  index scenario_S5 0 = Return (ev_ref 0)
  ∧ index scenario_S5 1 = Return (ev_ref 1)
  ∧ index scenario_S5 2 = Return (ee_ref 0)
  ∧ index scenario_S5 3 = Return (fv_ref 0)
  ∧ index scenario_S5 4 = Return (fv_ref 1)
  ∧ index scenario_S5 5 = Return (fv_ref 2)
  ∧ index scenario_S5 6
    = Throw (out_of_range "Constraint index is out of range!").
Proof.
  assert (Hmax : ∀ i, 0 ≤ i → i < 7 → 0 ≤ i ≤ SIZE_MAX).
  { intros i Hi0 Hi. split; [done|]. unfold SIZE_MAX.
    assert (7 ≤ 2 ^ 64 - 1) by (vm_compute; discriminate). lia. }
  pose proof (λ i Hi0 Hi,
    flat_index_contract scenario_S5 i scenario_S5_representable
      (Hmax i Hi0 Hi)) as H.
  split_and!.
  - destruct (H 0) as ([x (_ & Hx & _)] & _); [lia..| |exact Hx].
    vm_compute. reflexivity.
  - destruct (H 1) as ([x (_ & Hx & _)] & _); [lia..| |exact Hx].
    vm_compute. reflexivity.
  - destruct (H 2) as (_ & Hee & _); [lia..|].
    destruct Hee as [x (_ & Hx & _)]; [|exact Hx].
    vm_compute. split; [discriminate|reflexivity].
  - destruct (H 3) as (_ & _ & Hfv & _); [lia..|].
    destruct Hfv as [x (_ & Hx & _)]; [|exact Hx].
    vm_compute. split; [discriminate|reflexivity].
  - destruct (H 4) as (_ & _ & Hfv & _); [lia..|].
    destruct Hfv as [x (_ & Hx & _)]; [|exact Hx].
    vm_compute. split; [discriminate|reflexivity].
  - destruct (H 5) as (_ & _ & Hfv & _); [lia..|].
    destruct Hfv as [x (_ & Hx & _)]; [|exact Hx].
    vm_compute. split; [discriminate|reflexivity].
  - destruct (H 6) as (_ & _ & _ & Hout); [lia..|].
    apply Hout. vm_compute. discriminate.
Defined.

(** C10. The overload on a mutable container and the overload on a
    constant one give the same result at every index: a reference to the
    same position of the same sequence, or the same exception. *)
Theorem index_overloads_agree (c : Candidates) (idx : Z) :
  index c idx = index_const c idx
  ∧ (∀ r, index c idx = Return r ↔ index_const c idx = Return r)
  ∧ (∀ e, index c idx = Throw e ↔ index_const c idx = Throw e).
Proof. by split_and!. Qed.

(** ** CCD dispatch *)

Section Dispatch.

Context {double : Type}.

Context (point_edge_ccd :
  @RowVector double → @RowVector double → @RowVector double →
  @RowVector double → @RowVector double → @RowVector double →
  @ccd_tail double (bool * double)).

Context (edge_edge_ccd point_triangle_ccd :
  @RowVector double → @RowVector double →
  @RowVector double → @RowVector double →
  @RowVector double → @RowVector double →
  @RowVector double → @RowVector double →
  @ccd_tail double (bool * double)).

Context (V0 V1 : @MatrixXd double) (E F : MatrixXi).

Context (toi tmax tolerance : double) (max_iterations : Z)
  (conservative_rescaling : double).

(** C7. With indices in range, each dispatcher is one call of its kernel
    on the rows the candidate indexes: the point-edge kernel on the row of
    the vertex and the rows [E(e, 0)], [E(e, 1)] of [V0] and of [V1]; the
    edge-edge kernel on the endpoint rows of both edges; the
    point-triangle kernel on the row of the vertex and the rows
    [F(f, 0)], [F(f, 1)], [F(f, 2)]; with [toi], [tmax], [tolerance],
    [max_iterations] and [conservative_rescaling] handed on as they
    came. *)
Theorem ccd_dispatch :
  (∀ (c : EdgeVertex.EdgeVertexCandidate) e0 e1 p_t0 e0_t0 e1_t0
     p_t1 e0_t1 e1_t1,
     coeff E (EdgeVertex.edge_index c) 0 = Some e0 →
     coeff E (EdgeVertex.edge_index c) 1 = Some e1 →
     row V0 (EdgeVertex.vertex_index c) = Some p_t0 →
     row V0 e0 = Some e0_t0 → row V0 e1 = Some e1_t0 →
     row V1 (EdgeVertex.vertex_index c) = Some p_t1 →
     row V1 e0 = Some e0_t1 → row V1 e1 = Some e1_t1 →
     EdgeVertexCandidate_ccd point_edge_ccd c V0 V1 E F
       toi tmax tolerance max_iterations conservative_rescaling
     = Some (point_edge_ccd p_t0 e0_t0 e1_t0 p_t1 e0_t1 e1_t1
               toi tmax tolerance max_iterations conservative_rescaling))
  ∧ (∀ (c : EdgeEdge.EdgeEdgeCandidate) a0 a1 b0 b1
       a0_t0 a1_t0 b0_t0 b1_t0 a0_t1 a1_t1 b0_t1 b1_t1,
       coeff E (EdgeEdge.edge0_index c) 0 = Some a0 →
       coeff E (EdgeEdge.edge0_index c) 1 = Some a1 →
       coeff E (EdgeEdge.edge1_index c) 0 = Some b0 →
       coeff E (EdgeEdge.edge1_index c) 1 = Some b1 →
       row V0 a0 = Some a0_t0 → row V0 a1 = Some a1_t0 →
       row V0 b0 = Some b0_t0 → row V0 b1 = Some b1_t0 →
       row V1 a0 = Some a0_t1 → row V1 a1 = Some a1_t1 →
       row V1 b0 = Some b0_t1 → row V1 b1 = Some b1_t1 →
       EdgeEdgeCandidate_ccd edge_edge_ccd c V0 V1 E F
         toi tmax tolerance max_iterations conservative_rescaling
       = Some (edge_edge_ccd a0_t0 a1_t0 b0_t0 b1_t0
                 a0_t1 a1_t1 b0_t1 b1_t1
                 toi tmax tolerance max_iterations conservative_rescaling))
  ∧ (∀ (c : FaceVertex.FaceVertexCandidate) f0 f1 f2
       p_t0 f0_t0 f1_t0 f2_t0 p_t1 f0_t1 f1_t1 f2_t1,
       coeff F (FaceVertex.face_index c) 0 = Some f0 →
       coeff F (FaceVertex.face_index c) 1 = Some f1 →
       coeff F (FaceVertex.face_index c) 2 = Some f2 →
       row V0 (FaceVertex.vertex_index c) = Some p_t0 →
       row V0 f0 = Some f0_t0 → row V0 f1 = Some f1_t0 →
       row V0 f2 = Some f2_t0 →
       row V1 (FaceVertex.vertex_index c) = Some p_t1 →
       row V1 f0 = Some f0_t1 → row V1 f1 = Some f1_t1 →
       row V1 f2 = Some f2_t1 →
       FaceVertexCandidate_ccd point_triangle_ccd c V0 V1 E F
         toi tmax tolerance max_iterations conservative_rescaling
       = Some (point_triangle_ccd p_t0 f0_t0 f1_t0 f2_t0
                 p_t1 f0_t1 f1_t1 f2_t1
                 toi tmax tolerance max_iterations conservative_rescaling)).
Proof.
  split_and!.
  - intros c e0 e1 p_t0 e0_t0 e1_t0 p_t1 e0_t1 e1_t1
      HE0 HE1 Hp0 Ha0 Hb0 Hp1 Ha1 Hb1.
    unfold EdgeVertexCandidate_ccd. rewrite HE0, HE1, Hp0, Hp1. simpl.
    by rewrite Ha0, Hb0, Ha1, Hb1.
  - intros c a0 a1 b0 b1 a0_t0 a1_t0 b0_t0 b1_t0 a0_t1 a1_t1 b0_t1 b1_t1
      HA0 HA1 HB0 HB1 H1 H2 H3 H4 H5 H6 H7 H8.
    unfold EdgeEdgeCandidate_ccd. rewrite HA0, HA1, HB0, HB1. simpl.
    by rewrite H1, H2, H3, H4, H5, H6, H7, H8.
  - intros c f0 f1 f2 p_t0 f0_t0 f1_t0 f2_t0 p_t1 f0_t1 f1_t1 f2_t1
      HF0 HF1 HF2 Hp0 H1 H2 H3 Hp1 H4 H5 H6.
    unfold FaceVertexCandidate_ccd. rewrite HF0, HF1, HF2, Hp0, Hp1. simpl.
    by rewrite H1, H2, H3, H4, H5, H6.
Qed.

End Dispatch.

Lemma ccd_dispatch_witness :
  EdgeVertexCandidate_ccd stub6 (EdgeVertex.make 1 3)
    scenario_V scenario_V1 scenario_E scenario_F 0 1 0 1000 1
  = Some (stub6 [0; 0; 1] [1; 0; 0] [0; 1; 0] [0; 0; -1] [1; 0; 0] [0; 1; 0]
            0 1 0 1000 1)
  ∧ EdgeEdgeCandidate_ccd stub8 (EdgeEdge.make 0 2)
      scenario_V scenario_V1 scenario_E scenario_F 0 1 0 1000 1
    = Some (stub8 [0; 0; 0] [1; 0; 0] [0; 0; 1] [1; 1; 1]
              [0; 0; 0] [1; 0; 0] [0; 0; -1] [1; 1; 2] 0 1 0 1000 1)
  ∧ FaceVertexCandidate_ccd stub8 (FaceVertex.make 1 3)
      scenario_V scenario_V1 scenario_E scenario_F 0 1 0 1000 1
    = Some (stub8 [0; 0; 1] [1; 0; 0] [0; 1; 0] [1; 1; 1]
              [0; 0; -1] [1; 0; 0] [0; 1; 0] [1; 1; 2] 0 1 0 1000 1).
Proof.
  destruct (ccd_dispatch stub6 stub8 stub8
              scenario_V scenario_V1 scenario_E scenario_F 0 1 0 1000 1)
    as (Hev & Hee & Hfv).
  split_and!.
  - by apply (Hev (EdgeVertex.make 1 3) 1 2).
  - by apply (Hee (EdgeEdge.make 0 2) 0 1 3 4).
  - by apply (Hfv (FaceVertex.make 1 3) 1 2 4).
Defined.

(** ** The OBJ writer *)

Section Writer.

Context {double : Type}.

Implicit Types (out : @ofstream double) (r : @obj_record double)
  (recs : list (@obj_record double)) (V : @MatrixXd double).

Lemma object_names_app recs1 recs2 :
  object_names (recs1 ++ recs2) = object_names recs1 ++ object_names recs2.
Proof. apply omap_app. Qed.

Lemma vertex_count_app recs1 recs2 :
  vertex_count (recs1 ++ recs2)
  = (vertex_count recs1 + vertex_count recs2)%nat.
Proof. unfold vertex_count, vertices. by rewrite omap_app, length_app. Qed.

Lemma sent_refl out : sent [] out out.
Proof. split; [done|]. intros ?. by rewrite app_nil_r. Qed.

Lemma sent_trans recs1 recs2 out1 out2 out3 :
  sent recs1 out1 out2 → sent recs2 out2 out3 →
  sent (recs1 ++ recs2) out1 out3.
Proof.
  intros [Ho1 H1] [Ho2 H2]. split; [congruence|].
  intros Hf. destruct (H2 Hf) as [Hf2 ->]. destruct (H1 Hf2) as [Hf1 ->].
  by rewrite app_assoc.
Qed.

Lemma sent_put r out : sent [r] out (put r out).
Proof.
  unfold put. destruct (failed out) eqn:Hf.
  - split; [done|]. congruence.
  - destruct (room out); split; simpl; done.
Qed.

Lemma put_row_Some V i out out' :
  put_row V i out = Some out' →
  ∃ coords, row V i = Some coords ∧ out' = put (obj_vertex coords) out.
Proof.
  unfold put_row. intros H. destruct (row V i) as [coords|]; [|done].
  exists coords. simpl in H. by injection H as <-.
Qed.

Lemma int_add_Some i k j : int_add i k = Some j → j = i + k.
Proof. unfold int_add. case_decide; congruence. Qed.

Lemma sent_put_after recs r out out' :
  sent recs out out' → sent (recs ++ [r]) out (put r out').
Proof. intros H. eapply sent_trans; [exact H|apply sent_put]. Qed.

(** One turn of a writer loop: name what each bind produced, then use the
    induction hypothesis on the rest of the candidates. *)
Ltac loop_turn H IH :=
  simpl in H; simplify_option_eq;
  repeat match goal with
  | Hp : put_row _ _ _ = Some _ |- _ =>
      apply put_row_Some in Hp as (? & ? & ->)
  | Hi : int_add _ _ = Some _ |- _ => apply int_add_Some in Hi as ->
  end;
  apply IH in H as (-> & ? & Hsent & Hnames & Hcount);
  split; [rewrite Nat2Z.inj_succ; lia|];
  eexists; split_and!;
  [ eapply sent_trans; [|exact Hsent];
    repeat eapply sent_put_after; apply sent_refl
  | rewrite object_names_app, Hnames; reflexivity
  | rewrite vertex_count_app, Hcount; simpl; lia ].

Ltac loop_end H :=
  injection H as <- <-; split; [simpl; lia|];
  exists []; split_and!; [apply sent_refl|done..].

Lemma save_obj_ev_loop_sent V E l : ∀ out i out' i',
  save_obj_ev_loop out V E i l = Some (out', i') →
  i' = i + 3 * Z.of_nat (length l)
  ∧ ∃ recs, sent recs out out' ∧ object_names recs = []
            ∧ vertex_count recs = (3 * length l)%nat.
Proof.
  induction l as [|c l IH]; intros out i out' i' H;
    [loop_end H|loop_turn H IH].
Qed.

Lemma save_obj_ee_loop_sent V E l : ∀ out i out' i',
  save_obj_ee_loop out V E i l = Some (out', i') →
  i' = i + 4 * Z.of_nat (length l)
  ∧ ∃ recs, sent recs out out' ∧ object_names recs = []
            ∧ vertex_count recs = (4 * length l)%nat.
Proof.
  induction l as [|c l IH]; intros out i out' i' H;
    [loop_end H|loop_turn H IH].
Qed.

Lemma save_obj_fv_loop_sent V F l : ∀ out i out' i',
  save_obj_fv_loop out V F i l = Some (out', i') →
  i' = i + 4 * Z.of_nat (length l)
  ∧ ∃ recs, sent recs out out' ∧ object_names recs = []
            ∧ vertex_count recs = (4 * length l)%nat.
Proof.
  induction l as [|c l IH]; intros out i out' i' H;
    [loop_end H|loop_turn H IH].
Qed.

Lemma save_obj_ef_loop_sent V E F l : ∀ out i out' i',
  save_obj_ef_loop out V E F i l = Some (out', i') →
  i' = i + 5 * Z.of_nat (length l)
  ∧ ∃ recs, sent recs out out' ∧ object_names recs = []
            ∧ vertex_count recs = (5 * length l)%nat.
Proof.
  induction l as [|c l IH]; intros out i out' i' H;
    [loop_end H|loop_turn H IH].
Qed.

Lemma int_add_in_range i k :
  INT_MIN ≤ i + k ≤ INT_MAX → int_add i k = Some (i + k).
Proof. intros H. unfold int_add. by rewrite decide_True. Qed.

Lemma put_row_indexed V (M : MatrixXi) a b out :
  is_Some (coeff M a b ≫= row V) →
  ∃ v coords, coeff M a b = Some v
              ∧ put_row V v out = Some (put (obj_vertex coords) out).
Proof.
  intros [coords H]. apply bind_Some in H as (v & Hv & Hrow).
  exists v, coords. split; [done|]. unfold put_row. by rewrite Hrow.
Qed.

Lemma put_row_direct V i out :
  is_Some (row V i) →
  ∃ coords, put_row V i out = Some (put (obj_vertex coords) out).
Proof. intros [coords H]. exists coords. unfold put_row. by rewrite H. Qed.

(** One turn of a writer loop that cannot go wrong: every row exists and
    every sum is an [int]. *)
Ltac loop_runs :=
  simpl;
  repeat match goal with
  | H : is_Some (coeff ?M ?a ?b ≫= row ?V)
    |- context [coeff ?M ?a ?b ≫= (λ v, put_row ?V v ?out ≫= _)] =>
      let Hv := fresh in let Hp := fresh in
      destruct (put_row_indexed V M a b out H) as (? & ? & Hv & Hp);
      rewrite Hv; simpl; rewrite Hp; simpl; clear H Hv Hp
  | H : is_Some (row ?V ?i) |- context [put_row ?V ?i ?out ≫= _] =>
      let Hp := fresh in
      destruct (put_row_direct V i out H) as (? & Hp);
      rewrite Hp; simpl; clear H Hp
  | |- context [int_add ?i ?k] =>
      rewrite (int_add_in_range i k) by lia; simpl
  end.

Lemma save_obj_ev_loop_runs V E l : ∀ out i,
  Forall (ev_rows_exist V E) l →
  INT_MIN ≤ i → i + 3 * Z.of_nat (length l) ≤ INT_MAX →
  is_Some (save_obj_ev_loop out V E i l).
Proof.
  induction l as [|c l IH]; intros out i Hrows Hmin Hmax; [done|].
  apply Forall_cons in Hrows as [(H0 & H1 & H2) Hrows].
  rewrite length_cons, Nat2Z.inj_succ in Hmax.
  loop_runs. apply IH; [done|lia..].
Qed.

Lemma save_obj_ee_loop_runs V E l : ∀ out i,
  Forall (ee_rows_exist V E) l →
  INT_MIN ≤ i → i + 4 * Z.of_nat (length l) ≤ INT_MAX →
  is_Some (save_obj_ee_loop out V E i l).
Proof.
  induction l as [|c l IH]; intros out i Hrows Hmin Hmax; [done|].
  apply Forall_cons in Hrows as [(H0 & H1 & H2 & H3) Hrows].
  rewrite length_cons, Nat2Z.inj_succ in Hmax.
  loop_runs. apply IH; [done|lia..].
Qed.

Lemma save_obj_fv_loop_runs V F l : ∀ out i,
  Forall (fv_rows_exist V F) l →
  INT_MIN ≤ i → i + 4 * Z.of_nat (length l) ≤ INT_MAX →
  is_Some (save_obj_fv_loop out V F i l).
Proof.
  induction l as [|c l IH]; intros out i Hrows Hmin Hmax; [done|].
  apply Forall_cons in Hrows as [(H0 & H1 & H2 & H3) Hrows].
  rewrite length_cons, Nat2Z.inj_succ in Hmax.
  loop_runs. apply IH; [done|lia..].
Qed.

(** What each writer sends, the face-vertex and edge-edge blocks
    included: one object name, then the records of the loop. *)
Lemma save_obj_ev_sent out V E F l out' :
  save_obj_ev out V E F l = Some out' →
  ∃ recs, sent recs out out' ∧ object_names recs = ["EV"%string]
          ∧ vertex_count recs = (3 * length l)%nat.
Proof.
  unfold save_obj_ev. intros H.
  apply fmap_Some in H as ([out1 i1] & H & ->).
  apply save_obj_ev_loop_sent in H as (_ & recs & Hsent & Hnames & Hcount).
  exists ([obj_name "EV"] ++ recs). split_and!.
  - eapply sent_trans; [apply sent_put|exact Hsent].
  - by rewrite object_names_app, Hnames.
  - by rewrite vertex_count_app, Hcount.
Qed.

Lemma save_obj_ee_sent out V E F l out' :
  save_obj_ee out V E F l = Some out' →
  ∃ recs, sent recs out out' ∧ object_names recs = ["EE"%string]
          ∧ vertex_count recs = (4 * length l)%nat.
Proof.
  unfold save_obj_ee. intros H.
  apply fmap_Some in H as ([out1 i1] & H & ->).
  apply save_obj_ee_loop_sent in H as (_ & recs & Hsent & Hnames & Hcount).
  exists ([obj_name "EE"] ++ recs). split_and!.
  - eapply sent_trans; [apply sent_put|exact Hsent].
  - by rewrite object_names_app, Hnames.
  - by rewrite vertex_count_app, Hcount.
Qed.

Lemma save_obj_fv_sent out V E F l out' :
  save_obj_fv out V E F l = Some out' →
  ∃ recs, sent recs out out' ∧ object_names recs = ["FV"%string]
          ∧ vertex_count recs = (4 * length l)%nat.
Proof.
  unfold save_obj_fv. intros H.
  apply fmap_Some in H as ([out1 i1] & H & ->).
  apply save_obj_fv_loop_sent in H as (_ & recs & Hsent & Hnames & Hcount).
  exists ([obj_name "FV"] ++ recs). split_and!.
  - eapply sent_trans; [apply sent_put|exact Hsent].
  - by rewrite object_names_app, Hnames.
  - by rewrite vertex_count_app, Hcount.
Qed.

Lemma save_obj_ef_sent out V E F l out' :
  save_obj_ef out V E F l = Some out' →
  ∃ recs, sent recs out out' ∧ object_names recs = ["EF"%string]
          ∧ vertex_count recs = (5 * length l)%nat.
Proof.
  unfold save_obj_ef. intros H.
  apply fmap_Some in H as ([out1 i1] & H & ->).
  apply save_obj_ef_loop_sent in H as (_ & recs & Hsent & Hnames & Hcount).
  exists ([obj_name "EF"] ++ recs). split_and!.
  - eapply sent_trans; [apply sent_put|exact Hsent].
  - by rewrite object_names_app, Hnames.
  - by rewrite vertex_count_app, Hcount.
Qed.

Lemma ofstream_open_is_open (fs : filesystem) filename :
  is_open (@ofstream_open double fs filename) = true ↔ is_Some (fs filename).
Proof.
  unfold ofstream_open. destruct (fs filename); simpl.
  - split; [by eexists|done].
  - split; [done|]. by intros [? ?].
Qed.

(** A call of [Candidates::save_obj] that returns: either no file opened
    and the flag is [false], or the three writers ran one after the other
    on the opened stream and the flag is [true]. *)
Lemma save_obj_Some fs c filename V E F b out :
  save_obj fs c filename V E F = Some (b, out) →
  (b = false ∧ fs filename = None ∧ out = ofstream_open fs filename)
  ∨ (b = true ∧ is_Some (fs filename)
     ∧ ∃ recs, sent recs (ofstream_open fs filename) out
               ∧ object_names recs = ["EV"; "EE"; "FV"]%string
               ∧ vertex_count recs
                 = (3 * length (ev_candidates c) + 4 * length (ee_candidates c)
                    + 4 * length (fv_candidates c))%nat).
Proof.
  unfold save_obj. intros H.
  destruct (is_open (ofstream_open fs filename)) eqn:Hopen; simpl in H.
  - right. apply ofstream_open_is_open in Hopen.
    simplify_option_eq.
    repeat match goal with
    | Hw : save_obj_ev _ _ _ _ _ = Some _ |- _ =>
        apply save_obj_ev_sent in Hw as (recs1 & Hs1 & Hn1 & Hc1)
    | Hw : save_obj_ee _ _ _ _ _ = Some _ |- _ =>
        apply save_obj_ee_sent in Hw as (recs2 & Hs2 & Hn2 & Hc2)
    | Hw : save_obj_fv _ _ _ _ _ = Some _ |- _ =>
        apply save_obj_fv_sent in Hw as (recs3 & Hs3 & Hn3 & Hc3)
    end.
    split_and!; [done..|]. exists (recs1 ++ recs2 ++ recs3). split_and!.
    + eapply sent_trans; [exact Hs1|]. eapply sent_trans; [exact Hs2|done].
    + by rewrite !object_names_app, Hn1, Hn2, Hn3.
    + rewrite !vertex_count_app, Hc1, Hc2, Hc3. lia.
  - left. injection H as <- <-. split_and!; [done| |done].
    destruct (fs filename) eqn:Hfs; [|done].
    assert (is_Some (fs filename)) as Hs by (by rewrite Hfs).
    apply ofstream_open_is_open in Hs. congruence.
Qed.

Lemma INT_MIN_le_1 : INT_MIN ≤ 1.
Proof. vm_compute. discriminate. Qed.

(** On a dumpable container the call returns. *)
Lemma save_obj_runs (fs : filesystem) c filename V E F :
  dumpable V E F c → is_Some (save_obj fs c filename V E F).
Proof.
  intros (Hev & Hee & Hfv & Hnev & Hnee & Hnfv). unfold save_obj.
  destruct (is_open (ofstream_open fs filename)); simpl; [|by eexists].
  unfold save_obj_ev.
  destruct (save_obj_ev_loop_runs V E (ev_candidates c)
              (put (obj_name "EV") (ofstream_open fs filename)) 1
              Hev INT_MIN_le_1 Hnev) as [[out1 i1] ->].
  simpl. unfold save_obj_ee.
  destruct (save_obj_ee_loop_runs V E (ee_candidates c)
              (put (obj_name "EE") out1) 1
              Hee INT_MIN_le_1 Hnee) as [[out2 i2] ->].
  simpl. unfold save_obj_fv.
  destruct (save_obj_fv_loop_runs V F (fv_candidates c)
              (put (obj_name "FV") out2) 1
              Hfv INT_MIN_le_1 Hnfv) as [[out3 i3] ->].
  simpl. by eexists.
Qed.

Lemma written_ofstream_open (fs : filesystem) filename :
  written (@ofstream_open double fs filename) = [].
Proof. unfold ofstream_open. by destruct (fs filename). Qed.

(** The part of the vertex counts that holds of the code: a file written
    in full has [3|EV| + 4|EE| + 4|FV|] vertex records. *)
Lemma save_obj_vertex_count (fs : filesystem) c filename V E F out :
  save_obj fs c filename V E F = Some (true, out) →
  failed out = false →
  vertex_count (written out)
  = (3 * length (ev_candidates c) + 4 * length (ee_candidates c)
     + 4 * length (fv_candidates c))%nat.
Proof.
  intros H Hgood.
  apply save_obj_Some in H as [(? & _)|(_ & _ & recs & Hsent & _ & Hc)];
    [done|].
  destruct Hsent as [_ Hsent]. destruct (Hsent Hgood) as [_ ->].
  by rewrite written_ofstream_open.
Qed.

(** C4, as the code has it. A file that [Candidates::save_obj] wrote in
    full holds three named objects, [o EV], [o EE] and [o FV], in that
    order. *)
Theorem save_obj_object_names (fs : filesystem) c filename V E F out :
  save_obj fs c filename V E F = Some (true, out) →
  failed out = false →
  object_names (written out) = ["EV"; "EE"; "FV"]%string.
Proof.
  intros H Hgood.
  apply save_obj_Some in H as [(? & _)|(_ & _ & recs & Hsent & Hn & _)];
    [done|].
  destruct Hsent as [_ Hsent]. destruct (Hsent Hgood) as [_ ->].
  by rewrite written_ofstream_open.
Qed.

(** C8, as the code has it. [Candidates::save_obj] returns [false] when
    the file does not open; whenever it returns, it returns [true] exactly
    when the file opened, whatever became of the writes; and on a dumpable
    container it does return. *)
Theorem save_obj_returns_whether_opened (fs : filesystem) c filename V E F :
  (fs filename = None →
   save_obj fs c filename V E F = Some (false, ofstream_open fs filename))
  ∧ (∀ b out, save_obj fs c filename V E F = Some (b, out) →
              (b = true ↔ is_Some (fs filename)))
  ∧ (dumpable V E F c →
     ∃ b out, save_obj fs c filename V E F = Some (b, out)
              ∧ (b = true ↔ is_Some (fs filename))).
Proof.
  assert (Hflag : ∀ b out, save_obj fs c filename V E F = Some (b, out) →
                           (b = true ↔ is_Some (fs filename))).
  { intros b out H.
    apply save_obj_Some in H as [(-> & Hfs & _)|(-> & Hfs & _)].
    - rewrite Hfs. split; [done|]. by intros [? ?].
    - done. }
  split_and!.
  - intros Hfs. unfold save_obj, ofstream_open. by rewrite Hfs.
  - exact Hflag.
  - intros Hd. destruct (save_obj_runs fs c filename V E F Hd) as [[b out] H].
    exists b, out. split; [done|]. by apply Hflag in H.
Qed.

End Writer.

(** ** The writer on the scenarios *)

Lemma scenario_S5_dumpable :
  dumpable scenario_V scenario_E scenario_F scenario_S5.
Proof.
  unfold dumpable. split_and!.
  - repeat apply Forall_cons_2; [..|apply Forall_nil_2];
      (split_and!; eexists; vm_compute; reflexivity).
  - repeat apply Forall_cons_2; [..|apply Forall_nil_2];
      (split_and!; eexists; vm_compute; reflexivity).
  - repeat apply Forall_cons_2; [..|apply Forall_nil_2];
      (split_and!; eexists; vm_compute; reflexivity).
  - vm_compute. discriminate.
  - vm_compute. discriminate.
  - vm_compute. discriminate.
Defined.

(** Scenario S6: the dump of the S5 container has 22 vertex records, six
    of the edge-vertex, four of the edge-edge and twelve of the
    face-vertex candidates. *)
Example scenario_S6 :
  (λ r, (r.1, failed r.2, vertex_count (written r.2)))
    <$> save_obj (device_of 100) scenario_S5 "candidates.obj"
          scenario_V scenario_E scenario_F
  = Some (true, false, 22%nat).
Proof. vm_compute. reflexivity. Qed.

(** C4 fails: the dump of the S5 container, written in full, names the
    objects [EV], [EE] and [FV]; there is no fourth object [EF]. *)
Lemma save_obj_writes_no_EF_object :
  (λ r, (r.1, failed r.2, object_names (written r.2)))
    <$> save_obj (device_of 100) scenario_S5 "candidates.obj"
          scenario_V scenario_E scenario_F
  = Some (true, false, ["EV"; "EE"; "FV"]%string)
  ∧ (λ r, object_names (written r.2))
      <$> save_obj (device_of 100) scenario_S5 "candidates.obj"
            scenario_V scenario_E scenario_F
    ≠ Some ["EV"; "EE"; "FV"; "EF"]%string.
Proof. split; [vm_compute; reflexivity|]. vm_compute. discriminate. Qed.

Lemma save_obj_object_names_witness :
  ∃ out,
    save_obj (device_of 100) scenario_S5 "candidates.obj"
      scenario_V scenario_E scenario_F = Some (true, out)
    ∧ failed out = false
    ∧ object_names (written out) = ["EV"; "EE"; "FV"]%string.
Proof.
  eexists. split; [vm_compute; reflexivity|]. split; [reflexivity|].
  apply (save_obj_object_names (device_of 100) scenario_S5 "candidates.obj"
           scenario_V scenario_E scenario_F).
  - vm_compute. reflexivity.
  - reflexivity.
Defined.

(** C8 fails: on a device that takes two records and then refuses, the
    call on the S5 container returns [true] although the stream has failed
    and the file holds two of the 32 records of the dump. *)
Lemma save_obj_true_on_failed_write :
  save_obj (device_of 2) scenario_S5 "candidates.obj"
    scenario_V scenario_E scenario_F
  = Some (true, {| is_open := true; failed := true; room := 0;
                   written := [obj_name "EV"; obj_vertex [0; 0; 0]] |})
  ∧ (λ r, (failed r.2, length (written r.2)))
      <$> save_obj (device_of 100) scenario_S5 "candidates.obj"
            scenario_V scenario_E scenario_F
    = Some (false, 32%nat).
Proof. split; vm_compute; reflexivity. Qed.

Lemma save_obj_returns_whether_opened_witness :
  save_obj no_files scenario_S5 "candidates.obj"
    scenario_V scenario_E scenario_F
  = Some (false, ofstream_open no_files "candidates.obj")
  ∧ (true = true ↔ is_Some (device_of 2 "candidates.obj"%string))
  ∧ ∃ b out,
      save_obj (device_of 2) scenario_S5 "candidates.obj"
        scenario_V scenario_E scenario_F = Some (b, out)
      ∧ (b = true ↔ is_Some (device_of 2 "candidates.obj"%string)).
Proof.
  split_and!.
  - apply (save_obj_returns_whether_opened no_files scenario_S5
             "candidates.obj" scenario_V scenario_E scenario_F).
    reflexivity.
  - eapply (save_obj_returns_whether_opened (device_of 2) scenario_S5
              "candidates.obj" scenario_V scenario_E scenario_F).
    vm_compute. reflexivity.
  - apply (save_obj_returns_whether_opened (device_of 2) scenario_S5
             "candidates.obj" scenario_V scenario_E scenario_F).
    exact scenario_S5_dumpable.
Defined.

(** C5 against the code. The dump of an edge-vertex candidate followed by
    an edge-edge candidate is written in full. The edge-vertex candidate
    owns the vertices 1 to 3 of the file and the edge-edge candidate the
    vertices 4 to 7, yet the records of the edge-edge candidate are
    [l 1 2] and [l 3 4]: every writer starts its counter at 1 again. Read
    back, the two segments of the edge-edge candidate run between vertices
    of the edge-vertex candidate and not between the endpoints
    [(1,0,0)-(0,1,0)] and [(0,0,1)-(1,1,1)] of its own edges. *)
Theorem save_obj_counter_restarts_per_object :
  ∃ out,
    save_obj (device_of 100) scenario_EV_then_EE "candidates.obj"
      scenario_V scenario_E scenario_F = Some (true, out)
    ∧ failed out = false
    ∧ written out
      = [obj_name "EV";
         obj_vertex [0; 0; 0]; obj_vertex [1; 0; 0]; obj_vertex [0; 0; 1];
         obj_line 1 2;
         obj_name "EE";
         obj_vertex [1; 0; 0]; obj_vertex [0; 1; 0];
         obj_vertex [0; 0; 1]; obj_vertex [1; 1; 1];
         obj_line 1 2; obj_line 3 4;
         obj_name "FV"]
    ∧ resolved (written out)
      = [[Some [0; 0; 0]; Some [1; 0; 0]];
         [Some [0; 0; 0]; Some [1; 0; 0]];
         [Some [0; 0; 1]; Some [1; 0; 0]]]
    ∧ resolved (written out)
      ≠ [[Some [0; 0; 0]; Some [1; 0; 0]];
         [Some [1; 0; 0]; Some [0; 1; 0]];
         [Some [0; 0; 1]; Some [1; 1; 1]]].
Proof.
  eexists. split; [vm_compute; reflexivity|].
  split_and!; [reflexivity..|]. vm_compute. discriminate.
Qed.

(** * Further properties of the code *)

(** ** Equality of candidates *)

(** [operator==] of the four ordered kinds holds of two candidates exactly
    when they are the same pair of indices. *)
Theorem ordered_kinds_eqb_eq :
  (∀ a b : VertexVertex.VertexVertexCandidate,
     VertexVertex.eqb a b = true ↔ a = b)
  ∧ (∀ a b : EdgeVertex.EdgeVertexCandidate,
       EdgeVertex.eqb a b = true ↔ a = b)
  ∧ (∀ a b : EdgeFace.EdgeFaceCandidate, EdgeFace.eqb a b = true ↔ a = b)
  ∧ (∀ a b : FaceVertex.FaceVertexCandidate,
       FaceVertex.eqb a b = true ↔ a = b).
Proof.
  split_and!; intros [a0 a1] [b0 b1].
  - unfold VertexVertex.eqb. simpl. rewrite pair_eqb_true.
    split; [by intros [= -> ->]|by intros [= -> ->]].
  - unfold EdgeVertex.eqb. simpl. rewrite pair_eqb_true.
    split; [by intros [= -> ->]|by intros [= -> ->]].
  - unfold EdgeFace.eqb. simpl. rewrite pair_eqb_true.
    split; [by intros [= -> ->]|by intros [= -> ->]].
  - unfold FaceVertex.eqb. simpl. rewrite pair_eqb_true.
    split; [by intros [= -> ->]|by intros [= -> ->]].
Qed.

Lemma EdgeEdge_eqb_swap (a b : EdgeEdge.EdgeEdgeCandidate) :
  EdgeEdge.eqb a b = true ↔ b = a ∨ b = EdgeEdge.swap a.
Proof.
  destruct a as [a0 a1], b as [b0 b1]. unfold EdgeEdge.eqb, EdgeEdge.swap.
  simpl. rewrite orb_true_iff, !andb_true_iff, !Z.eqb_eq. split.
  - intros [[-> ->]|[-> ->]]; [by left|by right].
  - intros [[= -> ->]|[= -> ->]]; [by left|by right].
Qed.

(** [EdgeEdgeCandidate::operator==] is an equivalence relation, and the
    candidates equal to [a] are [a] itself and [a] with its two indices
    exchanged. *)
Theorem EdgeEdge_eqb_equivalence :
  (∀ a, EdgeEdge.eqb a a = true)
  ∧ (∀ a b, EdgeEdge.eqb a b = EdgeEdge.eqb b a)
  ∧ (∀ a b c, EdgeEdge.eqb a b = true → EdgeEdge.eqb b c = true →
              EdgeEdge.eqb a c = true)
  ∧ (∀ a b, EdgeEdge.eqb a b = true ↔ b = a ∨ b = EdgeEdge.swap a).
Proof.
  split_and!.
  - intros a. by apply EdgeEdge_eqb_key.
  - intros a b. apply eq_true_iff_eq. rewrite !EdgeEdge_eqb_key. naive_solver.
  - intros a b c. rewrite !EdgeEdge_eqb_key. congruence.
  - apply EdgeEdge_eqb_swap.
Qed.

(** [EdgeEdgeCandidate::operator<] cannot tell equal candidates apart:
    replacing either operand by a candidate equal to it leaves the
    comparison as it was. *)
Theorem EdgeEdge_ltb_respects_eqb (a a' b b' : EdgeEdge.EdgeEdgeCandidate) :
  EdgeEdge.eqb a a' = true → EdgeEdge.eqb b b' = true →
  EdgeEdge.ltb a b = EdgeEdge.ltb a' b'.
Proof.
  rewrite !EdgeEdge_eqb_key, !EdgeEdge_ltb_key. by intros -> ->.
Qed.

Lemma EdgeEdge_ltb_respects_eqb_witness :
  EdgeEdge.ltb (EdgeEdge.make 1 2) (EdgeEdge.make 0 3)
  = EdgeEdge.ltb (EdgeEdge.make 2 1) (EdgeEdge.make 3 0).
Proof. by apply EdgeEdge_ltb_respects_eqb. Defined.

(** ** The flat index space *)

Lemma wrap_size_t_range (z : Z) : 0 ≤ wrap_size_t z ≤ SIZE_MAX.
Proof.
  unfold wrap_size_t, SIZE_MAX.
  assert (0 < 2 ^ 64) by (vm_compute; reflexivity).
  pose proof (Z.mod_pos_bound z (2 ^ 64)). lia.
Qed.

Lemma deref_is_Some (c : Candidates) (r : CandidateRef) :
  is_Some (deref c r)
  ↔ match r with
    | ev_ref pos => is_Some (ev_candidates c !! pos)
    | ee_ref pos => is_Some (ee_candidates c !! pos)
    | fv_ref pos => is_Some (fv_candidates c !! pos)
    end.
Proof. destruct r; simpl; apply fmap_is_Some. Qed.

(** Where a returned reference points, read off the index. *)
Lemma index_Return (c : Candidates) (i : Z) (r : CandidateRef) :
  0 ≤ i ≤ SIZE_MAX →
  index c i = Return r →
  (i < vector_size (ev_candidates c) ∧ r = ev_ref (Z.to_nat i))
  ∨ (vector_size (ev_candidates c) ≤ i
     < vector_size (ev_candidates c) + vector_size (ee_candidates c)
     ∧ r = ee_ref (Z.to_nat (i - vector_size (ev_candidates c))))
  ∨ (vector_size (ev_candidates c) + vector_size (ee_candidates c) ≤ i
     < vector_size (ev_candidates c) + vector_size (ee_candidates c)
       + vector_size (fv_candidates c)
     ∧ r = fv_ref (Z.to_nat (i - vector_size (ev_candidates c)
                             - vector_size (ee_candidates c)))).
Proof.
  intros [Hi0 Himax]. unfold index.
  pose proof (vector_size_nonneg (ev_candidates c)).
  pose proof (vector_size_nonneg (ee_candidates c)).
  destruct (Z.ltb_spec i 0); [lia|].
  destruct (Z.ltb_spec i (vector_size (ev_candidates c))).
  { unfold vector_at. rewrite decide_True by lia. intros [= <-]. by left. }
  rewrite wrap_size_t_small by lia.
  destruct (Z.ltb_spec (i - vector_size (ev_candidates c))
              (vector_size (ee_candidates c))).
  { unfold vector_at. rewrite decide_True by lia. intros [= <-].
    right. left. split; [lia|done]. }
  rewrite wrap_size_t_small by lia.
  destruct (Z.ltb_spec (i - vector_size (ev_candidates c)
                        - vector_size (ee_candidates c))
              (vector_size (fv_candidates c))); [|done].
  unfold vector_at. rewrite decide_True by lia. intros [= <-].
  right. right. split; [lia|done].
Qed.

(** The unchecked vector access inside [operator[]] is never out of
    bounds: at every index the operator either throws [std::out_of_range]
    or returns a reference to a candidate that is stored in the
    container. *)
Theorem index_returns_or_throws (c : Candidates) (idx : Z) :
  0 ≤ idx →
  (∃ r, index c idx = Return r ∧ is_Some (deref c r))
  ∨ index c idx = Throw (out_of_range "Constraint index is out of range!").
Proof.
  intros Hidx. unfold index.
  destruct (Z.ltb_spec idx 0); [lia|].
  destruct (Z.ltb_spec idx (vector_size (ev_candidates c))).
  { left. destruct (vector_at_in_range ev_ref (ev_candidates c) idx)
      as [-> Hsome]; [lia|].
    eexists. split; [done|]. by apply deref_is_Some. }
  pose proof (wrap_size_t_range (idx - vector_size (ev_candidates c))).
  destruct (Z.ltb_spec (wrap_size_t (idx - vector_size (ev_candidates c)))
              (vector_size (ee_candidates c))).
  { left. destruct (vector_at_in_range ee_ref (ee_candidates c)
                      (wrap_size_t (idx - vector_size (ev_candidates c))))
      as [-> Hsome]; [lia|].
    eexists. split; [done|]. by apply deref_is_Some. }
  match goal with |- context [wrap_size_t (?a - ?b) <? _] =>
    pose proof (wrap_size_t_range (a - b));
    destruct (Z.ltb_spec (wrap_size_t (a - b))
                (vector_size (fv_candidates c))); [|by right];
    left;
    destruct (vector_at_in_range fv_ref (fv_candidates c)
                (wrap_size_t (a - b))) as [-> Hsome]; [lia|]
  end.
  eexists. split; [done|]. by apply deref_is_Some.
Qed.

Lemma index_returns_or_throws_witness :
  (∃ r, index scenario_S5 2 = Return r ∧ is_Some (deref scenario_S5 r))
  ∨ index scenario_S5 2
    = Throw (out_of_range "Constraint index is out of range!").
Proof. apply index_returns_or_throws. lia. Defined.

(** Two different [size_t] indices never give a reference to the same
    candidate. *)
Theorem index_injective (c : Candidates) (i j : Z) (r : CandidateRef) :
  0 ≤ i ≤ SIZE_MAX → 0 ≤ j ≤ SIZE_MAX →
  index c i = Return r → index c j = Return r → i = j.
Proof.
  intros Hi Hj Hri Hrj.
  pose proof (vector_size_nonneg (ev_candidates c)).
  pose proof (vector_size_nonneg (ee_candidates c)).
  destruct (index_Return c i r Hi Hri) as [(? & Hr1)|[(? & Hr1)|(? & Hr1)]];
    destruct (index_Return c j r Hj Hrj) as [(? & Hr2)|[(? & Hr2)|(? & Hr2)]];
    rewrite Hr1 in Hr2; try done; injection Hr2 as Hr2; lia.
Qed.

Lemma size_t_small (i : Z) : 0 ≤ i → i < 7 → 0 ≤ i ≤ SIZE_MAX.
Proof.
  intros Hi0 Hi. split; [done|]. unfold SIZE_MAX.
  assert (7 ≤ 2 ^ 64 - 1) by (vm_compute; discriminate). lia.
Qed.

Lemma index_injective_witness : (4 : Z) = 4.
Proof.
  apply (index_injective scenario_S5 4 4 (fv_ref 1));
    [apply size_t_small; lia..|reflexivity|reflexivity].
Defined.

(** Flat indexing reaches the whole container and nothing else: a
    reference points to a stored candidate exactly when an index below
    [size()] returns it. *)
Theorem index_reaches_every_candidate (c : Candidates) (r : CandidateRef) :
  representable c →
  is_Some (deref c r) ↔ ∃ i, 0 ≤ i < size c ∧ index c i = Return r.
Proof.
  intros Hrep. rewrite (size_representable c Hrep).
  pose proof (vector_size_nonneg (ev_candidates c)).
  pose proof (vector_size_nonneg (ee_candidates c)).
  pose proof (vector_size_nonneg (fv_candidates c)).
  unfold representable in Hrep. split.
  - rewrite deref_is_Some. destruct r as [pos|pos|pos]; intros Hsome;
      apply lookup_lt_is_Some in Hsome.
    + exists (Z.of_nat pos). unfold vector_size in *. split; [lia|].
      destruct (index_ev c (Z.of_nat pos)) as [-> _];
        [unfold vector_size; lia|].
      by rewrite Nat2Z.id.
    + exists (vector_size (ev_candidates c) + Z.of_nat pos).
      unfold vector_size in *. split; [lia|].
      destruct (index_ee c (Z.of_nat (length (ev_candidates c))
                            + Z.of_nat pos)) as [-> _];
        [unfold vector_size; lia..|].
      do 2 f_equal. unfold vector_size. lia.
    + exists (vector_size (ev_candidates c) + vector_size (ee_candidates c)
              + Z.of_nat pos).
      unfold vector_size in *. split; [lia|].
      destruct (index_fv c (Z.of_nat (length (ev_candidates c))
                            + Z.of_nat (length (ee_candidates c))
                            + Z.of_nat pos)) as [-> _];
        [unfold vector_size; lia..|].
      do 2 f_equal. unfold vector_size. lia.
  - intros (i & Hi & Hidx). rewrite deref_is_Some.
    assert (0 ≤ i ≤ SIZE_MAX) as Hmax by lia.
    destruct (index_Return c i r Hmax Hidx)
      as [(? & ->)|[(? & ->)|(? & ->)]];
      apply lookup_lt_is_Some; unfold vector_size in *; lia.
Qed.

Lemma index_reaches_every_candidate_witness :
  is_Some (deref scenario_S5 (fv_ref 2))
  ↔ ∃ i, 0 ≤ i < size scenario_S5 ∧ index scenario_S5 i = Return (fv_ref 2).
Proof.
  exact (index_reaches_every_candidate scenario_S5 (fv_ref 2)
           scenario_S5_representable).
Defined.

(** [empty()] and [size()] agree. *)
Theorem empty_iff_size_zero (c : Candidates) :
  representable c → empty c = true ↔ size c = 0.
Proof.
  intros Hrep. rewrite (size_representable c Hrep).
  unfold empty. rewrite !andb_true_iff, !vector_empty_nil.
  unfold vector_size.
  destruct (ev_candidates c), (ee_candidates c), (fv_candidates c);
    simpl; split; try done; try lia; intros [[? ?] ?]; done.
Qed.

Lemma empty_iff_size_zero_witness :
  empty scenario_S5 = true ↔ size scenario_S5 = 0.
Proof.
  exact (empty_iff_size_zero scenario_S5 scenario_S5_representable).
Defined.

(** A container is empty exactly when [operator[]] throws at index 0, and
    on an empty container, a cleared one in particular, it throws at every
    index. *)
Theorem index_of_empty (c : Candidates) :
  (empty c = true
   ↔ index c 0 = Throw (out_of_range "Constraint index is out of range!"))
  ∧ (empty c = true →
     ∀ idx, 0 ≤ idx →
       index c idx = Throw (out_of_range "Constraint index is out of range!"))
  ∧ (∀ idx, 0 ≤ idx →
       index (clear c) idx
       = Throw (out_of_range "Constraint index is out of range!")).
Proof.
  assert (Hall : ∀ c', empty c' = true → ∀ idx, 0 ≤ idx →
            index c' idx
            = Throw (out_of_range "Constraint index is out of range!")).
  { intros c' Hempty idx Hidx. unfold empty in Hempty.
    rewrite !andb_true_iff, !vector_empty_nil in Hempty.
    destruct Hempty as [[Hev Hee] Hfv]. unfold index.
    rewrite Hev, Hee, Hfv. unfold vector_size. simpl length.
    change (Z.of_nat 0) with 0.
    destruct (Z.ltb_spec idx 0); [done|].
    pose proof (wrap_size_t_range (idx - 0)).
    destruct (Z.ltb_spec (wrap_size_t (idx - 0)) 0); [lia|].
    pose proof (wrap_size_t_range (wrap_size_t (idx - 0) - 0)).
    destruct (Z.ltb_spec (wrap_size_t (wrap_size_t (idx - 0) - 0)) 0);
      [lia|done]. }
  split_and!.
  - split; [intros Hempty; by apply Hall|].
    unfold empty, index.
    destruct (ev_candidates c) as [|x ev]; [|done].
    destruct (ee_candidates c) as [|y ee]; [|done].
    destruct (fv_candidates c) as [|z fv]; [done|done].
  - apply Hall.
  - intros idx Hidx. by apply Hall.
Qed.

Lemma index_of_empty_witness :
  index (clear scenario_S5) 3
  = Throw (out_of_range "Constraint index is out of range!").
Proof.
  destruct (index_of_empty (clear scenario_S5)) as (_ & Hall & _).
  apply Hall; [reflexivity|lia].
Defined.

(** ** When the CCD dispatch is defined *)

Section DispatchDefined.

Context {double : Type}.

Context (point_edge_ccd :
  @RowVector double → @RowVector double → @RowVector double →
  @RowVector double → @RowVector double → @RowVector double →
  @ccd_tail double (bool * double)).

Context (edge_edge_ccd point_triangle_ccd :
  @RowVector double → @RowVector double →
  @RowVector double → @RowVector double →
  @RowVector double → @RowVector double →
  @RowVector double → @RowVector double →
  @ccd_tail double (bool * double)).

Context (V0 V1 : @MatrixXd double) (E F : MatrixXi).

Context (toi tmax tolerance : double) (max_iterations : Z)
  (conservative_rescaling : double).

(** Deciding every lookup of a dispatcher at once. *)
Ltac lookups :=
  repeat match goal with
  | |- context [coeff ?M ?i ?j ≫= row ?V] =>
      destruct (coeff M i j ≫= row V); simpl
  | |- context [row ?V ?i] => destruct (row V i); simpl
  end.

(** A dispatcher reaches its kernel exactly when every row it indexes
    exists at both times; otherwise an Eigen access is out of bounds. The
    kernel and its five trailing arguments play no part in that. *)
Theorem ccd_defined_iff_rows_exist :
  (∀ c : EdgeVertex.EdgeVertexCandidate,
     is_Some (EdgeVertexCandidate_ccd point_edge_ccd c V0 V1 E F
                toi tmax tolerance max_iterations conservative_rescaling)
     ↔ ev_rows_exist V0 E c ∧ ev_rows_exist V1 E c)
  ∧ (∀ c : EdgeEdge.EdgeEdgeCandidate,
       is_Some (EdgeEdgeCandidate_ccd edge_edge_ccd c V0 V1 E F
                  toi tmax tolerance max_iterations conservative_rescaling)
       ↔ ee_rows_exist V0 E c ∧ ee_rows_exist V1 E c)
  ∧ (∀ c : FaceVertex.FaceVertexCandidate,
       is_Some (FaceVertexCandidate_ccd point_triangle_ccd c V0 V1 E F
                  toi tmax tolerance max_iterations conservative_rescaling)
       ↔ fv_rows_exist V0 F c ∧ fv_rows_exist V1 F c).
Proof.
  split_and!; intros c.
  - unfold EdgeVertexCandidate_ccd, ev_rows_exist. rewrite !is_Some_alt.
    lookups; tauto.
  - unfold EdgeEdgeCandidate_ccd, ee_rows_exist. rewrite !is_Some_alt.
    lookups; tauto.
  - unfold FaceVertexCandidate_ccd, fv_rows_exist. rewrite !is_Some_alt.
    lookups; tauto.
Qed.

(** Two edge-edge candidates that compare equal give the same CCD result,
    provided the kernel does not depend on which of its two edges comes
    first. *)
Theorem EdgeEdge_ccd_respects_eqb (c c' : EdgeEdge.EdgeEdgeCandidate) :
  (∀ a0 a1 b0 b1 a0' a1' b0' b1' t tm tol it cr,
     edge_edge_ccd a0 a1 b0 b1 a0' a1' b0' b1' t tm tol it cr
     = edge_edge_ccd b0 b1 a0 a1 b0' b1' a0' a1' t tm tol it cr) →
  EdgeEdge.eqb c c' = true →
  EdgeEdgeCandidate_ccd edge_edge_ccd c V0 V1 E F
    toi tmax tolerance max_iterations conservative_rescaling
  = EdgeEdgeCandidate_ccd edge_edge_ccd c' V0 V1 E F
      toi tmax tolerance max_iterations conservative_rescaling.
Proof.
  intros Hsym Heq. apply EdgeEdge_eqb_swap in Heq as [->| ->]; [done|].
  unfold EdgeEdgeCandidate_ccd, EdgeEdge.swap. simpl.
  lookups; try done. by rewrite Hsym.
Qed.

End DispatchDefined.

Lemma EdgeEdge_ccd_respects_eqb_witness :
  EdgeEdgeCandidate_ccd stub8 (EdgeEdge.make 0 2)
    scenario_V scenario_V1 scenario_E scenario_F 0 1 0 1000 1
  = EdgeEdgeCandidate_ccd stub8 (EdgeEdge.make 2 0)
      scenario_V scenario_V1 scenario_E scenario_F 0 1 0 1000 1.
Proof. by apply EdgeEdge_ccd_respects_eqb. Defined.

(** ** The OBJ writer, record by record *)

Section WriterRecords.

Context {double : Type}.

Implicit Types (out : @ofstream double) (r : @obj_record double)
  (recs : list (@obj_record double)) (V : @MatrixXd double)
  (vs : list (@RowVector double)).

Lemma put_all_app recs1 recs2 out :
  put_all (recs1 ++ recs2) out = put_all recs2 (put_all recs1 out).
Proof. apply foldl_app. Qed.

Lemma vertices_app recs1 recs2 :
  vertices (recs1 ++ recs2) = vertices recs1 ++ vertices recs2.
Proof. apply omap_app. Qed.

Lemma resolved_in_app vs recs1 recs2 :
  resolved_in vs (recs1 ++ recs2)
  = resolved_in vs recs1 ++ resolved_in vs recs2.
Proof. apply omap_app. Qed.

Lemma index_in_at vs0 rest (i : Z) (k : nat) (j : Z) :
  1 ≤ i → length vs0 = Z.to_nat (i - 1) → j = i + Z.of_nat k →
  index_in (vs0 ++ rest) j = rest !! k.
Proof.
  intros Hi Hlen ->. unfold index_in. rewrite decide_True by lia.
  rewrite lookup_app_r by lia. f_equal. lia.
Qed.

Ltac find_vertex vs0 i :=
  repeat match goal with
  | |- context [index_in (vs0 ++ ?rest) ?j] =>
      first
        [ rewrite (index_in_at vs0 rest i 0 j) by (done || lia)
        | rewrite (index_in_at vs0 rest i 1 j) by (done || lia)
        | rewrite (index_in_at vs0 rest i 2 j) by (done || lia)
        | rewrite (index_in_at vs0 rest i 3 j) by (done || lia)
        | rewrite (index_in_at vs0 rest i 4 j) by (done || lia) ]
  end.

(** The records a nest of [put]s sends to the stream [out], first one
    first. *)
Ltac puts_of nest out :=
  lazymatch nest with
  | out => constr:(@nil (@obj_record double))
  | put ?r ?s => let l := puts_of s out in constr:(l ++ [r])
  end.

(** One turn of a writer loop, for the records it sends and the vertices
    their indices refer to. *)
Ltac loop_turn_puts H IH out i :=
  simpl in H; simplify_option_eq;
  repeat match goal with
  | Hp : put_row _ _ _ = Some _ |- _ =>
      apply put_row_Some in Hp as (? & ? & ->)
  | Hi : int_add _ _ = Some _ |- _ => apply int_add_Some in Hi as ->
  end;
  let recs := fresh "recs" in
  let Hlen := fresh "Hlen" in
  let Hres := fresh "Hres" in
  apply IH in H as (recs & -> & Hlen & Hres);
  match goal with
  | |- context [put_all recs ?nest] =>
      let sent_first := puts_of nest out in
      let sent_first := eval simpl in sent_first in
      exists (sent_first ++ recs)
  end;
  split_and!;
  [ by rewrite put_all_app
  | rewrite length_app, Hlen; simpl; lia
  | let vs0 := fresh "vs0" in
    let tail := fresh "tail" in
    let Hi := fresh "Hi" in
    let Hvs0 := fresh "Hvs0" in
    intros vs0 tail Hi Hvs0;
    rewrite vertices_app, resolved_in_app;
    match goal with
    | |- resolved_in (vs0 ++ (vertices ?h ++ vertices recs) ++ tail) ?h
         ++ resolved_in _ recs = _ =>
        replace (resolved_in (vs0 ++ (vertices h ++ vertices recs) ++ tail)
                   recs)
          with (resolved_in ((vs0 ++ vertices h) ++ vertices recs ++ tail)
                  recs)
          by (by rewrite <- !app_assoc);
        rewrite Hres by (rewrite ?length_app, ?Hvs0; simpl; lia)
    end;
    simpl; find_vertex vs0 i; simpl;
    unfold ev_shapes, ee_shapes, fv_shapes, ef_shapes, segment, triangle;
    repeat match goal with
    | Hc : coeff _ _ _ = Some _ |- _ => rewrite ?Hc; clear Hc
    end;
    simpl;
    repeat match goal with
    | Hr : row _ _ = Some _ |- _ => rewrite ?Hr; clear Hr
    end;
    done ].

Lemma save_obj_ev_loop_puts V E l : ∀ out i out' i',
  save_obj_ev_loop out V E i l = Some (out', i') →
  ∃ recs, out' = put_all recs out
    ∧ length recs = (4 * length l)%nat
    ∧ (∀ vs0 tail, 1 ≤ i → length vs0 = Z.to_nat (i - 1) →
         resolved_in (vs0 ++ vertices recs ++ tail) recs
         = l ≫= ev_shapes V E).
Proof.
  induction l as [|c l IH]; intros out i out' i' H.
  { injection H as <- <-. by exists []. }
  loop_turn_puts H IH out i.
Qed.

Lemma save_obj_ee_loop_puts V E l : ∀ out i out' i',
  save_obj_ee_loop out V E i l = Some (out', i') →
  ∃ recs, out' = put_all recs out
    ∧ length recs = (6 * length l)%nat
    ∧ (∀ vs0 tail, 1 ≤ i → length vs0 = Z.to_nat (i - 1) →
         resolved_in (vs0 ++ vertices recs ++ tail) recs
         = l ≫= ee_shapes V E).
Proof.
  induction l as [|c l IH]; intros out i out' i' H.
  { injection H as <- <-. by exists []. }
  loop_turn_puts H IH out i.
Qed.

Lemma save_obj_fv_loop_puts V F l : ∀ out i out' i',
  save_obj_fv_loop out V F i l = Some (out', i') →
  ∃ recs, out' = put_all recs out
    ∧ length recs = (5 * length l)%nat
    ∧ (∀ vs0 tail, 1 ≤ i → length vs0 = Z.to_nat (i - 1) →
         resolved_in (vs0 ++ vertices recs ++ tail) recs
         = l ≫= fv_shapes V F).
Proof.
  induction l as [|c l IH]; intros out i out' i' H.
  { injection H as <- <-. by exists []. }
  loop_turn_puts H IH out i.
Qed.

Lemma save_obj_ef_loop_puts V E F l : ∀ out i out' i',
  save_obj_ef_loop out V E F i l = Some (out', i') →
  ∃ recs, out' = put_all recs out
    ∧ length recs = (7 * length l)%nat
    ∧ (∀ vs0 tail, 1 ≤ i → length vs0 = Z.to_nat (i - 1) →
         resolved_in (vs0 ++ vertices recs ++ tail) recs
         = l ≫= ef_shapes V E F).
Proof.
  induction l as [|c l IH]; intros out i out' i' H.
  { injection H as <- <-. by exists []. }
  loop_turn_puts H IH out i.
Qed.

(** *** A list of records sent to a stream *)

Lemma put_all_cons r recs out :
  put_all (r :: recs) out = put_all recs (put r out).
Proof. reflexivity. Qed.

Lemma put_failed r out : failed out = true → put r out = out.
Proof. intros Hf. unfold put. by rewrite Hf. Qed.

Lemma put_room r out n :
  failed out = false → room out = S n →
  put r out = {| is_open := is_open out; failed := false; room := n;
                 written := written out ++ [r] |}.
Proof. intros Hf Hn. unfold put. by rewrite Hf, Hn. Qed.

Lemma put_no_room r out :
  failed out = false → room out = O →
  put r out = {| is_open := is_open out; failed := true; room := 0;
                 written := written out |}.
Proof. intros Hf Hn. unfold put. by rewrite Hf, Hn. Qed.

Lemma put_all_failed recs out : failed out = true → put_all recs out = out.
Proof.
  intros Hf. induction recs as [|r recs IH]; [done|].
  by rewrite put_all_cons, put_failed.
Qed.

Lemma put_all_is_open recs : ∀ out, is_open (put_all recs out) = is_open out.
Proof.
  induction recs as [|r recs IH]; intros out; [done|].
  rewrite put_all_cons, IH.
  unfold put. destruct (failed out); [done|]. by destruct (room out).
Qed.

Lemma put_all_enough recs : ∀ out,
  failed out = false → (length recs ≤ room out)%nat →
  put_all recs out
  = {| is_open := is_open out; failed := false;
       room := room out - length recs; written := written out ++ recs |}.
Proof.
  induction recs as [|r recs IH]; intros out Hf Hroom.
  - unfold put_all. simpl. rewrite app_nil_r, Nat.sub_0_r.
    destruct out. simpl in Hf. by subst.
  - rewrite length_cons in Hroom.
    destruct (room out) as [|n] eqn:Hn; [lia|].
    rewrite put_all_cons, (put_room r out n) by done.
    rewrite IH by (simpl; done || lia). simpl. by rewrite <- app_assoc.
Qed.

Lemma put_all_short recs : ∀ out,
  failed out = false → (room out < length recs)%nat →
  put_all recs out
  = {| is_open := is_open out; failed := true; room := 0;
       written := written out ++ take (room out) recs |}.
Proof.
  induction recs as [|r recs IH]; intros out Hf Hroom; [simpl in Hroom; lia|].
  rewrite length_cons in Hroom. rewrite put_all_cons.
  destruct (room out) as [|n] eqn:Hn.
  - rewrite put_no_room by done. rewrite put_all_failed by done.
    simpl. by rewrite app_nil_r.
  - rewrite (put_room r out n) by done.
    rewrite IH by (simpl; done || lia). simpl. by rewrite <- app_assoc.
Qed.

Lemma put_all_prefix recs out :
  written out `prefix_of` written (put_all recs out).
Proof.
  destruct (failed out) eqn:Hf; [by rewrite put_all_failed|].
  destruct (decide (length recs ≤ room out)%nat).
  - rewrite put_all_enough by done. simpl. by apply prefix_app_r.
  - rewrite put_all_short by (done || lia). simpl. by apply prefix_app_r.
Qed.

Lemma put_all_unfailed recs out :
  failed (put_all recs out) = false →
  failed out = false ∧ (length recs ≤ room out)%nat
  ∧ written (put_all recs out) = written out ++ recs.
Proof.
  intros Hgood. destruct (failed out) eqn:Hf.
  { rewrite put_all_failed in Hgood by done. congruence. }
  destruct (decide (length recs ≤ room out)%nat).
  - by rewrite put_all_enough.
  - rewrite put_all_short in Hgood by (done || lia). done.
Qed.

(** *** The four writers as lists of records *)

Lemma save_obj_ev_puts out V E F l out' :
  save_obj_ev out V E F l = Some out' →
  ∃ recs, out' = put_all (obj_name "EV" :: recs) out
    ∧ length recs = (4 * length l)%nat
    ∧ (∀ tail, resolved_in (vertices recs ++ tail) recs = l ≫= ev_shapes V E).
Proof.
  unfold save_obj_ev. intros H.
  apply fmap_Some in H as ([out1 i1] & H & ->).
  apply save_obj_ev_loop_puts in H as (recs & -> & Hlen & Hres).
  exists recs. split_and!; [done..|]. intros tail. by apply (Hres []).
Qed.

Lemma save_obj_ee_puts out V E F l out' :
  save_obj_ee out V E F l = Some out' →
  ∃ recs, out' = put_all (obj_name "EE" :: recs) out
    ∧ length recs = (6 * length l)%nat
    ∧ (∀ tail, resolved_in (vertices recs ++ tail) recs = l ≫= ee_shapes V E).
Proof.
  unfold save_obj_ee. intros H.
  apply fmap_Some in H as ([out1 i1] & H & ->).
  apply save_obj_ee_loop_puts in H as (recs & -> & Hlen & Hres).
  exists recs. split_and!; [done..|]. intros tail. by apply (Hres []).
Qed.

Lemma save_obj_fv_puts out V E F l out' :
  save_obj_fv out V E F l = Some out' →
  ∃ recs, out' = put_all (obj_name "FV" :: recs) out
    ∧ length recs = (5 * length l)%nat
    ∧ (∀ tail, resolved_in (vertices recs ++ tail) recs = l ≫= fv_shapes V F).
Proof.
  unfold save_obj_fv. intros H.
  apply fmap_Some in H as ([out1 i1] & H & ->).
  apply save_obj_fv_loop_puts in H as (recs & -> & Hlen & Hres).
  exists recs. split_and!; [done..|]. intros tail. by apply (Hres []).
Qed.

Lemma save_obj_ef_puts out V E F l out' :
  save_obj_ef out V E F l = Some out' →
  ∃ recs, out' = put_all (obj_name "EF" :: recs) out
    ∧ length recs = (7 * length l)%nat
    ∧ (∀ tail,
         resolved_in (vertices recs ++ tail) recs = l ≫= ef_shapes V E F).
Proof.
  unfold save_obj_ef. intros H.
  apply fmap_Some in H as ([out1 i1] & H & ->).
  apply save_obj_ef_loop_puts in H as (recs & -> & Hlen & Hres).
  exists recs. split_and!; [done..|]. intros tail. by apply (Hres []).
Qed.


(** A writer only appends: what the stream held before is a prefix of what
    it holds after, and the stream is neither opened nor closed. *)
Theorem writers_only_append out V E F :
  (∀ l out', save_obj_ev out V E F l = Some out' →
     written out `prefix_of` written out' ∧ is_open out' = is_open out)
  ∧ (∀ l out', save_obj_ee out V E F l = Some out' →
       written out `prefix_of` written out' ∧ is_open out' = is_open out)
  ∧ (∀ l out', save_obj_fv out V E F l = Some out' →
       written out `prefix_of` written out' ∧ is_open out' = is_open out)
  ∧ (∀ l out', save_obj_ef out V E F l = Some out' →
       written out `prefix_of` written out' ∧ is_open out' = is_open out).
Proof.
  split_and!; intros l out' H.
  - apply save_obj_ev_puts in H as (recs & -> & _).
    split; [apply put_all_prefix|apply put_all_is_open].
  - apply save_obj_ee_puts in H as (recs & -> & _).
    split; [apply put_all_prefix|apply put_all_is_open].
  - apply save_obj_fv_puts in H as (recs & -> & _).
    split; [apply put_all_prefix|apply put_all_is_open].
  - apply save_obj_ef_puts in H as (recs & -> & _).
    split; [apply put_all_prefix|apply put_all_is_open].
Qed.

(** *** Reading a file back *)

Lemma resolved_resolved_in (f : list (@obj_record double)) :
  resolved f = resolved_in (vertices f) f.
Proof. reflexivity. Qed.

Lemma vertices_names (tags : list string) :
  vertices (@obj_name double <$> tags) = [].
Proof. by induction tags. Qed.

Lemma resolved_in_names vs (tags : list string) :
  resolved_in vs (@obj_name double <$> tags) = [].
Proof. by induction tags. Qed.

Lemma object_names_names (tags : list string) :
  object_names (@obj_name double <$> tags) = tags.
Proof. induction tags as [|t tags IH]; [done|]. simpl. f_equal. exact IH. Qed.

Lemma resolved_names_then (tags : list string) (tag : string) recs :
  resolved ((obj_name <$> tags) ++ obj_name tag :: recs)
  = resolved_in (vertices recs) recs.
Proof.
  rewrite resolved_resolved_in, vertices_app, resolved_in_app.
  by rewrite vertices_names, resolved_in_names.
Qed.

(** What a writer alone leaves in a file: on a stream that holds at most
    object names, a block written in full reads back as the geometry of
    its candidates, every connectivity index referring to a vertex of the
    candidate it was written for. Here the writer of edge-vertex
    candidates: each candidate reads back as its edge. *)
Theorem save_obj_ev_alone_resolves out V E F l out' (tags : list string) :
  save_obj_ev out V E F l = Some out' →
  written out = obj_name <$> tags →
  failed out' = false →
  resolved (written out') = l ≫= ev_shapes V E.
Proof.
  intros H Htags Hgood.
  apply save_obj_ev_puts in H as (recs & -> & _ & Hres).
  apply put_all_unfailed in Hgood as (_ & _ & ->).
  rewrite Htags, resolved_names_then.
  specialize (Hres []). by rewrite app_nil_r in Hres.
Qed.

(** The same of the writer of edge-edge candidates: each candidate reads
    back as its two edges, first edge first. *)
Theorem save_obj_ee_alone_resolves out V E F l out' (tags : list string) :
  save_obj_ee out V E F l = Some out' →
  written out = obj_name <$> tags →
  failed out' = false →
  resolved (written out') = l ≫= ee_shapes V E.
Proof.
  intros H Htags Hgood.
  apply save_obj_ee_puts in H as (recs & -> & _ & Hres).
  apply put_all_unfailed in Hgood as (_ & _ & ->).
  rewrite Htags, resolved_names_then.
  specialize (Hres []). by rewrite app_nil_r in Hres.
Qed.

(** The same of the writer of face-vertex candidates: each candidate
    reads back as its face. *)
Theorem save_obj_fv_alone_resolves out V E F l out' (tags : list string) :
  save_obj_fv out V E F l = Some out' →
  written out = obj_name <$> tags →
  failed out' = false →
  resolved (written out') = l ≫= fv_shapes V F.
Proof.
  intros H Htags Hgood.
  apply save_obj_fv_puts in H as (recs & -> & _ & Hres).
  apply put_all_unfailed in Hgood as (_ & _ & ->).
  rewrite Htags, resolved_names_then.
  specialize (Hres []). by rewrite app_nil_r in Hres.
Qed.

(** The same of the writer of edge-face candidates: each candidate reads
    back as its edge and then its face; the block adds the one object
    name [EF] and five vertex records for each candidate. *)
Theorem save_obj_ef_alone_resolves out V E F l out' (tags : list string) :
  save_obj_ef out V E F l = Some out' →
  written out = obj_name <$> tags →
  failed out' = false →
  resolved (written out') = l ≫= ef_shapes V E F
  ∧ object_names (written out') = tags ++ ["EF"%string]
  ∧ vertex_count (written out') = (5 * length l)%nat.
Proof.
  intros H Htags Hgood.
  pose proof H as H'.
  apply save_obj_ef_puts in H as (recs & -> & _ & Hres).
  apply save_obj_ef_sent in H' as (recs' & [_ Hsent] & Hnames & Hcount).
  destruct (Hsent Hgood) as [_ Hw].
  apply put_all_unfailed in Hgood as (_ & _ & Hw').
  split_and!.
  - rewrite Hw', Htags, resolved_names_then.
    specialize (Hres []). by rewrite app_nil_r in Hres.
  - rewrite Hw, Htags, object_names_app, Hnames. f_equal.
    apply object_names_names.
  - rewrite Hw, Htags, vertex_count_app, Hcount.
    unfold vertex_count at 1. by rewrite vertices_names.
Qed.

(** *** The dump of a container as a list of records *)

Lemma save_obj_puts (fs : filesystem) c filename V E F out :
  save_obj fs c filename V E F = Some (true, out) →
  ∃ blk1 blk2 blk3,
    out = put_all (obj_name "EV" :: blk1 ++ obj_name "EE" :: blk2
                   ++ obj_name "FV" :: blk3) (ofstream_open fs filename)
    ∧ length blk1 = (4 * length (ev_candidates c))%nat
    ∧ length blk2 = (6 * length (ee_candidates c))%nat
    ∧ length blk3 = (5 * length (fv_candidates c))%nat
    ∧ (∀ tail, resolved_in (vertices blk1 ++ tail) blk1
               = ev_candidates c ≫= ev_shapes V E)
    ∧ (∀ tail, resolved_in (vertices blk2 ++ tail) blk2
               = ee_candidates c ≫= ee_shapes V E)
    ∧ (∀ tail, resolved_in (vertices blk3 ++ tail) blk3
               = fv_candidates c ≫= fv_shapes V F).
Proof.
  unfold save_obj. intros H.
  destruct (is_open (ofstream_open fs filename)); simpl in H; [|done].
  simplify_option_eq.
  repeat match goal with
  | Hw : save_obj_ev _ _ _ _ _ = Some _ |- _ =>
      apply save_obj_ev_puts in Hw as (blk1 & -> & Hl1 & Hres1)
  | Hw : save_obj_ee _ _ _ _ _ = Some _ |- _ =>
      apply save_obj_ee_puts in Hw as (blk2 & -> & Hl2 & Hres2)
  | Hw : save_obj_fv _ _ _ _ _ = Some _ |- _ =>
      apply save_obj_fv_puts in Hw as (blk3 & -> & Hl3 & Hres3)
  end.
  exists blk1, blk2, blk3. split_and!; [|done..].
  repeat (rewrite put_all_cons || rewrite put_all_app). done.
Qed.

Lemma ofstream_open_Some (fs : filesystem) filename n :
  fs filename = Some n →
  @ofstream_open double fs filename
  = {| is_open := true; failed := false; room := n; written := [] |}.
Proof. intros Hfs. unfold ofstream_open. by rewrite Hfs. Qed.

(** When the file opens on a device that takes [n] records, the call
    returns [true] and leaves [n] records in the file, or the whole dump
    if that is shorter: the dump has [3 + 4|EV| + 6|EE| + 5|FV|] records,
    and the file holds all of them exactly when [n] is at least that
    number. Nothing is said of the state of the stream. *)
Theorem save_obj_complete_iff_room (fs : filesystem) c filename V E F n b out :
  fs filename = Some n →
  save_obj fs c filename V E F = Some (b, out) →
  b = true
  ∧ length (written out) = (n `min` dump_length c)%nat
  ∧ (length (written out) = dump_length c ↔ (dump_length c ≤ n)%nat).
Proof.
  intros Hfs H.
  assert (b = true) as ->.
  { apply save_obj_Some in H as [(_ & Hnone & _)|(-> & _)]; [congruence|done]. }
  split; [done|].
  apply save_obj_puts in H as (blk1 & blk2 & blk3 & -> & Hl1 & Hl2 & Hl3 & _).
  rewrite (ofstream_open_Some fs filename n Hfs).
  assert (length (obj_name "EV" :: blk1 ++ obj_name "EE" :: blk2
                  ++ obj_name "FV" :: blk3) = dump_length c) as Hlen.
  { unfold dump_length. rewrite length_cons, length_app, length_cons,
      length_app, length_cons, Hl1, Hl2, Hl3. lia. }
  revert Hlen.
  generalize (obj_name "EV" :: blk1 ++ obj_name "EE" :: blk2
              ++ obj_name "FV" :: blk3).
  intros recs Hlen.
  destruct (decide (length recs ≤ n)%nat).
  - rewrite put_all_enough by done. simpl. lia.
  - rewrite put_all_short by (simpl; done || lia). simpl.
    rewrite length_take. lia.
Qed.

(** In a dump written in full, the candidates of the first sequence that
    is not empty are drawn right: the connectivity records of the
    edge-vertex candidates always read back as their edges; those of the
    edge-edge candidates do when there is no edge-vertex candidate; those
    of the face-vertex candidates do when there is neither. *)
Theorem save_obj_first_kind_resolves (fs : filesystem) c filename V E F out :
  save_obj fs c filename V E F = Some (true, out) →
  failed out = false →
  (∃ rest, resolved (written out)
           = (ev_candidates c ≫= ev_shapes V E) ++ rest)
  ∧ (ev_candidates c = [] →
     ∃ rest, resolved (written out)
             = (ee_candidates c ≫= ee_shapes V E) ++ rest)
  ∧ (ev_candidates c = [] → ee_candidates c = [] →
     resolved (written out) = fv_candidates c ≫= fv_shapes V F).
Proof.
  intros H Hgood.
  apply save_obj_puts in H
    as (blk1 & blk2 & blk3 & -> & Hl1 & Hl2 & Hl3 & Hres1 & Hres2 & Hres3).
  apply put_all_unfailed in Hgood as (_ & _ & ->).
  rewrite written_ofstream_open, app_nil_l.
  assert (∀ tag (recs : list (@obj_record double)),
            obj_name tag :: recs = (obj_name <$> [tag]) ++ recs) as Hname
    by done.
  rewrite resolved_resolved_in.
  rewrite (Hname "EV"%string), (Hname "EE"%string), (Hname "FV"%string).
  rewrite !vertices_app, !resolved_in_app, !vertices_names, !resolved_in_names.
  simpl. split_and!.
  - eexists. by rewrite Hres1.
  - intros Hev. rewrite Hev in Hl1. destruct blk1; [|done]. simpl.
    eexists. by rewrite Hres2.
  - intros Hev Hee. rewrite Hev in Hl1. rewrite Hee in Hl2.
    destruct blk1; [|done]. destruct blk2; [|done]. simpl.
    specialize (Hres3 []). by rewrite app_nil_r in Hres3.
Qed.

(** *** What a call that returns has needed *)

Lemma int_add_Some_range i k j :
  int_add i k = Some j → INT_MIN ≤ i + k ≤ INT_MAX.
Proof. unfold int_add. by case_decide. Qed.

(** One turn of a writer loop that returned: the rows were there and the
    counter stayed an [int]. *)
Ltac loop_needed H IH :=
  simpl in H; simplify_option_eq;
  repeat match goal with
  | Hp : put_row _ _ _ = Some _ |- _ =>
      apply put_row_Some in Hp as (? & ? & ->)
  | Hi : int_add ?i ?k = Some _ |- _ =>
      pose proof (int_add_Some_range _ _ _ Hi);
      apply int_add_Some in Hi as ->
  end;
  apply IH in H as [? ?]; [|lia];
  split; [|rewrite ?length_cons, ?Nat2Z.inj_succ; lia];
  apply Forall_cons; split; [|done];
  split_and!;
  repeat match goal with
  | Hc : coeff _ _ _ = Some _ |- _ => rewrite ?Hc; clear Hc
  end;
  simpl; by eexists.

Lemma save_obj_ev_loop_needs V E l : ∀ out i p,
  save_obj_ev_loop out V E i l = Some p → i ≤ INT_MAX →
  Forall (ev_rows_exist V E) l ∧ i + 3 * Z.of_nat (length l) ≤ INT_MAX.
Proof.
  induction l as [|c l IH]; intros out i p H Hi.
  { split; [done|]. simpl. lia. }
  loop_needed H IH.
Qed.

Lemma save_obj_ee_loop_needs V E l : ∀ out i p,
  save_obj_ee_loop out V E i l = Some p → i ≤ INT_MAX →
  Forall (ee_rows_exist V E) l ∧ i + 4 * Z.of_nat (length l) ≤ INT_MAX.
Proof.
  induction l as [|c l IH]; intros out i p H Hi.
  { split; [done|]. simpl. lia. }
  loop_needed H IH.
Qed.

Lemma save_obj_fv_loop_needs V F l : ∀ out i p,
  save_obj_fv_loop out V F i l = Some p → i ≤ INT_MAX →
  Forall (fv_rows_exist V F) l ∧ i + 4 * Z.of_nat (length l) ≤ INT_MAX.
Proof.
  induction l as [|c l IH]; intros out i p H Hi.
  { split; [done|]. simpl. lia. }
  loop_needed H IH.
Qed.

Lemma one_le_INT_MAX : 1 ≤ INT_MAX.
Proof. vm_compute. discriminate. Qed.

(** When the file opens, the call is free of undefined behaviour exactly
    on a dumpable container: every row the writers index exists, and the
    counters [1 + 3|EV|], [1 + 4|EE|] and [1 + 4|FV|] are [int]s. Whether
    the writes go through plays no part. *)
Theorem save_obj_defined_iff_dumpable (fs : filesystem) c filename V E F :
  is_Some (fs filename) →
  is_Some (save_obj fs c filename V E F) ↔ dumpable V E F c.
Proof.
  intros Hopen. split; [|apply save_obj_runs].
  intros [[b out] H]. unfold save_obj in H.
  apply (@ofstream_open_is_open double) in Hopen.
  rewrite Hopen in H. simpl in H.
  simplify_option_eq. unfold save_obj_ev, save_obj_ee, save_obj_fv in *.
  repeat match goal with
  | Hw : fst <$> _ = Some _ |- _ => apply fmap_Some in Hw as (? & Hw & _)
  end.
  repeat match goal with
  | Hw : save_obj_ev_loop _ _ _ _ _ = Some _ |- _ =>
      apply save_obj_ev_loop_needs in Hw as [? ?]; [|apply one_le_INT_MAX]
  | Hw : save_obj_ee_loop _ _ _ _ _ = Some _ |- _ =>
      apply save_obj_ee_loop_needs in Hw as [? ?]; [|apply one_le_INT_MAX]
  | Hw : save_obj_fv_loop _ _ _ _ _ = Some _ |- _ =>
      apply save_obj_fv_loop_needs in Hw as [? ?]; [|apply one_le_INT_MAX]
  end.
  by split_and!.
Qed.

End WriterRecords.

(** ** The writers on the scenarios, record by record *)


Lemma writers_only_append_witness :
  ∃ out',
    save_obj_fv (put (obj_name "EE") (fresh_stream 3))
      scenario_V scenario_F scenario_F [FaceVertex.make 0 3] = Some out'
    ∧ [obj_name "EE"] `prefix_of` written out'
    ∧ is_open out' = true.
Proof.
  eexists. split; [vm_compute; reflexivity|].
  destruct (writers_only_append (put (obj_name "EE") (fresh_stream 3))
              scenario_V scenario_F scenario_F) as (_ & _ & Hfv & _).
  apply (Hfv [FaceVertex.make 0 3]). vm_compute. reflexivity.
Defined.

Lemma save_obj_ev_alone_resolves_witness :
  ∃ out',
    save_obj_ev (fresh_stream 100) scenario_V scenario_E scenario_F
      (ev_candidates scenario_S5) = Some out'
    ∧ resolved (written out')
      = [[Some [0; 0; 0]; Some [1; 0; 0]]; [Some [1; 0; 0]; Some [0; 1; 0]]].
Proof.
  eexists. split; [vm_compute; reflexivity|].
  apply (save_obj_ev_alone_resolves (fresh_stream 100)
           scenario_V scenario_E scenario_F (ev_candidates scenario_S5) _ []).
  - vm_compute. reflexivity.
  - reflexivity.
  - reflexivity.
Defined.

Lemma save_obj_ee_alone_resolves_witness :
  ∃ out',
    save_obj_ee (fresh_stream 100) scenario_V scenario_E scenario_F
      (ee_candidates scenario_EV_then_EE) = Some out'
    ∧ resolved (written out')
      = [[Some [1; 0; 0]; Some [0; 1; 0]]; [Some [0; 0; 1]; Some [1; 1; 1]]].
Proof.
  eexists. split; [vm_compute; reflexivity|].
  apply (save_obj_ee_alone_resolves (fresh_stream 100)
           scenario_V scenario_E scenario_F
           (ee_candidates scenario_EV_then_EE) _ []).
  - vm_compute. reflexivity.
  - reflexivity.
  - reflexivity.
Defined.

Lemma save_obj_fv_alone_resolves_witness :
  ∃ out',
    save_obj_fv (fresh_stream 100) scenario_V scenario_F scenario_F
      [FaceVertex.make 1 0] = Some out'
    ∧ resolved (written out')
      = [[Some [1; 0; 0]; Some [0; 1; 0]; Some [1; 1; 1]]].
Proof.
  eexists. split; [vm_compute; reflexivity|].
  apply (save_obj_fv_alone_resolves (fresh_stream 100)
           scenario_V scenario_F scenario_F [FaceVertex.make 1 0] _ []).
  - vm_compute. reflexivity.
  - reflexivity.
  - reflexivity.
Defined.

Lemma save_obj_ef_alone_resolves_witness :
  ∃ out',
    save_obj_ef (fresh_stream 100) scenario_V scenario_E scenario_F
      scenario_EF = Some out'
    ∧ resolved (written out')
      = [[Some [0; 0; 1]; Some [1; 1; 1]];
         [Some [0; 0; 0]; Some [1; 0; 0]; Some [0; 1; 0]];
         [Some [0; 0; 0]; Some [1; 0; 0]];
         [Some [1; 0; 0]; Some [0; 1; 0]; Some [1; 1; 1]]]
    ∧ object_names (written out') = ["EF"%string]
    ∧ vertex_count (written out') = 10%nat.
Proof.
  eexists. split; [vm_compute; reflexivity|].
  apply (save_obj_ef_alone_resolves (fresh_stream 100)
           scenario_V scenario_E scenario_F scenario_EF _ []).
  - vm_compute. reflexivity.
  - reflexivity.
  - reflexivity.
Defined.

Lemma save_obj_complete_iff_room_witness :
  ∃ out,
    save_obj (device_of 2) scenario_S5 "candidates.obj"
      scenario_V scenario_E scenario_F = Some (true, out)
    ∧ length (written out) = (2 `min` dump_length scenario_S5)%nat
    ∧ (length (written out) = dump_length scenario_S5
       ↔ (dump_length scenario_S5 ≤ 2)%nat).
Proof.
  eexists. split; [vm_compute; reflexivity|].
  apply (save_obj_complete_iff_room (device_of 2) scenario_S5
           "candidates.obj" scenario_V scenario_E scenario_F 2 true).
  - reflexivity.
  - vm_compute. reflexivity.
Defined.

Lemma save_obj_first_kind_resolves_witness :
  ∃ out rest,
    save_obj (device_of 100) scenario_S5 "candidates.obj"
      scenario_V scenario_E scenario_F = Some (true, out)
    ∧ resolved (written out)
      = (ev_candidates scenario_S5 ≫= ev_shapes scenario_V scenario_E)
        ++ rest.
Proof.
  eexists.
  destruct (save_obj_first_kind_resolves (device_of 100) scenario_S5
              "candidates.obj" scenario_V scenario_E scenario_F
              (default (fresh_stream 0)
                 (snd <$> save_obj (device_of 100) scenario_S5
                            "candidates.obj"
                            scenario_V scenario_E scenario_F)))
    as ([rest Hrest] & _).
  - vm_compute. reflexivity.
  - vm_compute. reflexivity.
  - exists rest. split; [vm_compute; reflexivity|exact Hrest].
Defined.

Lemma save_obj_defined_iff_dumpable_witness :
  is_Some (save_obj (device_of 2) scenario_S5 "candidates.obj"
             scenario_V scenario_E scenario_F)
  ↔ dumpable scenario_V scenario_E scenario_F scenario_S5.
Proof.
  apply save_obj_defined_iff_dumpable. by eexists.
Defined.

Lemma save_obj_vertex_count_witness :
  ∃ out,
    save_obj (device_of 100) scenario_S5 "candidates.obj"
      scenario_V scenario_E scenario_F = Some (true, out)
    ∧ vertex_count (written out) = (3 * 2 + 4 * 1 + 4 * 3)%nat.
Proof.
  eexists. split; [vm_compute; reflexivity|].
  apply (save_obj_vertex_count (device_of 100) scenario_S5 "candidates.obj"
           scenario_V scenario_E scenario_F).
  - vm_compute. reflexivity.
  - reflexivity.
Defined.
